(** * The v1 API router: chat-completion routing and call recording

    A shallow embedding of the [v1ApiRouter] procedures [createChatCompletion]
    and [report] (the tRPC/OpenAPI router of the gateway), together with the
    collaborators they call.  JavaScript exceptions are an error monad,
    the mutable local [tags] and the calls made to collaborators are threaded
    as state, and promises launched with [void] are recorded as detached
    tasks that are settled after the response has left the handler. *)

From Stdlib Require Import ZArith QArith String List Bool Lia.
From stdpp Require Import base option list gmap strings pretty.

Local Open Scope Z_scope.
Set Warnings "-register-all".

(** ** Data *)

(** JSON values, for the payloads that the router only carries around. *)
Inductive Json : Type :=
| JNull
| JBool (b : bool)
| JNum (n : Z)
| JStr (s : string)
| JArr (items : list Json)
| JObj (members : list (string * Json)).

Abbreviation ChatCompletion := Json (only parsing).
Abbreviation ChatCompletionChunk := Json (only parsing).

(** The tRPC error code keys ([TRPCError]'s [code]). *)
Inductive TrpcCode : Type :=
| PARSE_ERROR | BAD_REQUEST | INTERNAL_SERVER_ERROR | NOT_IMPLEMENTED
| UNAUTHORIZED | FORBIDDEN | NOT_FOUND | METHOD_NOT_SUPPORTED | TIMEOUT
| CONFLICT | PRECONDITION_FAILED | PAYLOAD_TOO_LARGE | UNPROCESSABLE_CONTENT
| TOO_MANY_REQUESTS | CLIENT_CLOSED_REQUEST.

Definition code_key (c : TrpcCode) : string :=
  match c with
  | PARSE_ERROR => "PARSE_ERROR" | BAD_REQUEST => "BAD_REQUEST"
  | INTERNAL_SERVER_ERROR => "INTERNAL_SERVER_ERROR"
  | NOT_IMPLEMENTED => "NOT_IMPLEMENTED" | UNAUTHORIZED => "UNAUTHORIZED"
  | FORBIDDEN => "FORBIDDEN" | NOT_FOUND => "NOT_FOUND"
  | METHOD_NOT_SUPPORTED => "METHOD_NOT_SUPPORTED" | TIMEOUT => "TIMEOUT"
  | CONFLICT => "CONFLICT" | PRECONDITION_FAILED => "PRECONDITION_FAILED"
  | PAYLOAD_TOO_LARGE => "PAYLOAD_TOO_LARGE"
  | UNPROCESSABLE_CONTENT => "UNPROCESSABLE_CONTENT"
  | TOO_MANY_REQUESTS => "TOO_MANY_REQUESTS"
  | CLIENT_CLOSED_REQUEST => "CLIENT_CLOSED_REQUEST"
  end.

(** Modelled from the spec: the exception classes are declared outside
    the sources.  [APIError] is the provider client's error class, the one
    the upstream branch tests with [instanceof]: section 4.4 describes it
    as an error object carrying a provider status code and message.  Its
    [status] is the status of the provider's response; an error that the
    client raises without a response, such as a connection error, is of
    the same class and has no status, so [error.status] is undefined.
    [ExtendedTRPCError] carries the [error] field added for the provider's
    client; [Error] is any other exception. *)
Inductive JsError : Type :=
| ZodError (message : string)
| TRPCError (code : TrpcCode) (message : string)
| ExtendedTRPCError (code : TrpcCode) (message : string)
                    (extraCode : Z) (extraMessage : string)
| APIError (status : option Z) (message : string)
| Error (message : string).

(** [(error as Error).message] *)
Definition message (e : JsError) : string :=
  match e with
  | ZodError m | TRPCError _ m | ExtendedTRPCError _ m _ _
  | APIError _ m | Error m => m
  end.

Record ApiKey : Type := { projectId : string; readOnly : bool }.

(** [ctx]: the authenticated key and the request headers. *)
Record Ctx : Type := { key : ApiKey; headers : gmap string string }.

(** The parsed [chatCompletionInputReqPayload]: the router reads only
    [model]; [payload] is the whole object as it is logged or forwarded. *)
Record InputPayload : Type := { model : string; payload : Json }.

(** The procedure input: [in_reqPayload] is [Some] when the deprecated
    [reqPayload] key is in the input, [in_object] is the input itself. *)
Record Input : Type :=
  { in_reqPayload : option Json; in_object : Json; in_stream : bool }.

Record FineTune : Type :=
  { ft_id : string; ft_slug : string; ft_projectId : string }.

(** [ChatCompletion | Stream<ChatCompletionChunk>] *)
Inductive Completion : Type :=
| Single (c : ChatCompletion)
| Streamed (chunks : list ChatCompletionChunk).

(** [CalculatedUsage]; the cost is only carried here. *)
Record CalculatedUsage : Type :=
  { inputTokens : Z; outputTokens : Z; cost : Z }.

(** ** The stream split *)

(** The two streams that [tee()] returns share one source iterator and
    hold a queue each. *)
Record Tee : Type :=
  { source : list ChatCompletionChunk;
    leftQueue : list ChatCompletionChunk;
    rightQueue : list ChatCompletionChunk }.

Inductive Branch : Type := LeftBranch | RightBranch.

(** Modelled from the spec: [Stream.tee] belongs to the provider client
    library and is missing from the sources.  Section 4.5 and the design
    notes describe it as two independently buffered readers over one
    upstream source: a reader whose buffer is empty pulls the next chunk of
    the source into both buffers, then takes the head of its own. *)
Definition tee (chunks : list ChatCompletionChunk) : Tee :=
  {| source := chunks; leftQueue := []; rightQueue := [] |}.

(** Modelled from the spec: one read of a branch of the split, as section
    4.5 describes it.  A branch with chunks in its buffer takes the first;
    with an empty buffer it pulls the next chunk of the source, which is
    then also buffered for the other branch; at the end of the source the
    branch has ended. *)
Definition next (b : Branch) (t : Tee) : option ChatCompletionChunk * Tee :=
  match b with
  | LeftBranch =>
      match leftQueue t with
      | c :: q => (Some c, {| source := source t; leftQueue := q;
                              rightQueue := rightQueue t |})
      | [] =>
          match source t with
          | c :: rest => (Some c, {| source := rest; leftQueue := [];
                                     rightQueue := rightQueue t ++ [c] |})
          | [] => (None, t)
          end
      end
  | RightBranch =>
      match rightQueue t with
      | c :: q => (Some c, {| source := source t; leftQueue := leftQueue t;
                              rightQueue := q |})
      | [] =>
          match source t with
          | c :: rest => (Some c, {| source := rest;
                                     leftQueue := leftQueue t ++ [c];
                                     rightQueue := [] |})
          | [] => (None, t)
          end
      end
  end.

(** What each branch has delivered so far. *)
Record Seen : Type :=
  { seenLeft : list ChatCompletionChunk;
    seenRight : list ChatCompletionChunk }.

Definition observe (b : Branch) (o : option ChatCompletionChunk) (s : Seen)
  : Seen :=
  match o, b with
  | Some c, LeftBranch =>
      {| seenLeft := seenLeft s ++ [c]; seenRight := seenRight s |}
  | Some c, RightBranch =>
      {| seenLeft := seenLeft s; seenRight := seenRight s ++ [c] |}
  | None, _ => s
  end.

(** The two consumers read at their own pace: a schedule says whose turn
    each read is. *)
Fixpoint consume (schedule : list Branch) (t : Tee) (s : Seen) : Tee * Seen :=
  match schedule with
  | [] => (t, s)
  | b :: rest =>
      let '(o, t') := next b t in consume rest t' (observe b o s)
  end.

(** [for await (const chunk of stream)]: read one branch until it ends. *)
Fixpoint drain (fuel : nat) (b : Branch) (t : Tee)
  : list ChatCompletionChunk :=
  match fuel with
  | O => []
  | S n =>
      match next b t with
      | (Some c, t') => c :: drain n b t'
      | (None, _) => []
      end
  end.

Definition buffered (b : Branch) (t : Tee) : list ChatCompletionChunk :=
  match b with LeftBranch => leftQueue t | RightBranch => rightQueue t end.

Definition readAll (b : Branch) (t : Tee) : list ChatCompletionChunk :=
  drain (S (length (buffered b t) + length (source t))) b t.

#[global] Instance Branch_eq_dec : EqDecision Branch.
Proof. solve_decision. Defined.

(** How many reads of a schedule are the given branch's. *)
Definition reads (b : Branch) (schedule : list Branch) : nat :=
  length (filter (fun x => x = b) schedule).

Definition unseen : Seen := {| seenLeft := []; seenRight := [] |}.

Definition seenBy (b : Branch) (s : Seen) : list ChatCompletionChunk :=
  match b with LeftBranch => seenLeft s | RightBranch => seenRight s end.

(** Each branch has seen, has buffered, and still has to pull, the
    chunks of the stream that was split, in this order. *)
Definition split_of (chunks : list ChatCompletionChunk) (t : Tee) (s : Seen)
  : Prop :=
  seenLeft s ++ leftQueue t ++ source t = chunks
  /\ seenRight s ++ rightQueue t ++ source t = chunks.

(** ** Recording contracts *)

(** The argument of [recordLoggedCall], which is also the row it stores. *)
Record LoggedCall : Type :=
  { lc_projectId : string;
    lc_usage : option CalculatedUsage;
    lc_requestedAt : Z;
    lc_receivedAt : option Z;
    lc_reqPayload : Json;
    lc_respPayload : option Json;
    lc_statusCode : option Z;
    lc_errorMessage : option string;
    lc_tags : gmap string string }.

(** The [completion] handed to [recordUsage]: the completion itself, or
    one branch of a split stream. *)
Inductive Recordable : Type :=
| Whole (c : ChatCompletion)
| BranchOf (t : Tee) (b : Branch).

Record UsageArgs : Type :=
  { ru_projectId : string;
    ru_requestedAt : Z;
    ru_receivedAt : Z;
    ru_inputPayload : InputPayload;
    ru_completion : Recordable;
    ru_logRequest : bool;
    ru_fineTune : option FineTune;
    ru_tags : gmap string string }.

Inductive Recorder : Type :=
| RecordUsage (a : UsageArgs)
| RecordLoggedCall (a : LoggedCall).

(** A promise launched with [void]: [caught] says whether
    [.catch((e) => captureException(e))] is chained on it. *)
Record Task : Type := { recorder : Recorder; caught : bool }.

(** What the caller gets back on success. *)
Inductive Response : Type :=
| Completed (c : ChatCompletion)
| Readable (t : Tee) (b : Branch).

(** The calls a handler makes to its collaborators, in order. *)
Inductive Effect : Type :=
| FindUnique (slug : string)
| GetCompletion2 (ft : FineTune) (p : InputPayload)
| GetOpenaiCompletion (project : string) (p : InputPayload) (stream : bool)
| ConsoleError (msg : string)
| Detached (t : Task).

(** ** Collaborators *)

(** The collaborators whose code is not part of the router: schema
    validators, parsers, the custom-model table, the two providers, the
    status-code tables, the usage calculator, the clock and the storage
    faults.  [readFault] and [writeFault] are the message of the exception
    a storage read or write raises, if it raises. *)
Record Env : Type :=
  { chatCompletionInputReqPayload : Json -> JsError + InputPayload;
    JSON_parse : string -> JsError + Json;
    parseTags : Json -> JsError + gmap string string;
    fineTunes : gmap string FineTune;
    readFault : option string;
    getCompletion2 : FineTune -> InputPayload -> JsError + Completion;
    getOpenaiCompletion :
      string -> InputPayload -> bool -> JsError + Completion;
    trpcCodeFromHttpStatus : option Z -> TrpcCode;
    statusCodeFromTrpcCode : TrpcCode -> Z;
    reqValidator : Json -> option InputPayload;
    chatCompletionOutput : Json -> option ChatCompletion;
    calculateUsage :
      InputPayload -> option ChatCompletion -> option FineTune ->
      option CalculatedUsage;
    mergeChunks : list ChatCompletionChunk -> option ChatCompletion;
    dateNow : nat -> Z;
    writeFault : option string }.

(** [prisma.fineTune.findUnique({ where: { slug } })] *)
Definition findUnique (e : Env) (slug : string) : JsError + option FineTune :=
  match readFault e with
  | Some m => inl (Error m)
  | None => inr (fineTunes e !! slug)
  end.

(** Modelled from the spec: [typedFineTune] (types/dbColumns.types) is
    missing from the sources.  The Custom Model Record of section 3 is read
    as it is stored: the call only refines the column types of the row. *)
Definition typedFineTune (ft : FineTune) : FineTune := ft.

(** ** Strings *)

(** [s.replace(pattern, empty)] with a string pattern and the empty
    replacement: the first occurrence of the pattern is removed. *)
Fixpoint removeFirst (pattern s : string) : string :=
  if String.prefix pattern s
  then String.substring (String.length pattern)
         (String.length s - String.length pattern)%nat s
  else match s with
       | EmptyString => EmptyString
       | String c rest => String c (removeFirst pattern rest)
       end.

(** Truthiness of a header value that may be missing. *)
Definition truthy (v : option string) : bool :=
  match v with
  | Some s => negb (String.eqb s EmptyString)
  | None => false
  end.

(** [v === lit] on a header value that may be missing. *)
Definition same (v : option string) (lit : string) : bool :=
  match v with
  | Some s => String.eqb s lit
  | None => false
  end.

(** ** The exception and state monad *)

Definition M (S A : Type) : Type := S -> S * (JsError + A).

Definition ret {S A} (a : A) : M S A := fun s => (s, inr a).

Definition throw {S A} (e : JsError) : M S A := fun s => (s, inl e).

Definition bind {S A B} (m : M S A) (k : A -> M S B) : M S B :=
  fun s =>
    match m s with
    | (s', inl e) => (s', inl e)
    | (s', inr a) => k a s'
    end.

(** [try { m } catch (error) { h error }]: what [m] did to the state
    before it threw stays done. *)
Definition try_catch {S A} (m : M S A) (h : JsError -> M S A) : M S A :=
  fun s =>
    match m s with
    | (s', inl e) => h e s'
    | (s', inr a) => (s', inr a)
    end.

Definition lift {S A} (r : JsError + A) : M S A := fun s => (s, r).

Notation "x <- m ;; k" := (bind m (fun x => k))
  (at level 100, m at next level, right associativity).
Notation "m ;;; k" := (bind m (fun _ => k))
  (at level 100, right associativity).

(** ** createChatCompletion *)

(** The handler's frame: the mutable local [tags], which the [catch] block
    reads as the [try] block left it, and the calls made so far. *)
Record Frame : Type := { tags : gmap string string; trace : list Effect }.

Definition enter : Frame := {| tags := ∅; trace := [] |}.

Definition perform (ef : Effect) : M Frame unit :=
  fun f => ({| tags := tags f; trace := trace f ++ [ef] |}, inr tt).

(** [await] on a collaborator: the call is made, then its outcome is
    returned or thrown. *)
Definition await {A} (ef : Effect) (outcome : JsError + A) : M Frame A :=
  perform ef ;;; lift outcome.

Definition assignTags (t : gmap string string) : M Frame unit :=
  fun f => ({| tags := t; trace := trace f |}, inr tt).

Definition readTags : M Frame (gmap string string) :=
  fun f => (f, inr (tags f)).

Definition isFineTune (p : InputPayload) : bool :=
  String.prefix "openpipe:" (model p).

(** Default to true if not using a fine-tuned model. *)
Definition logRequest (ctx : Ctx) (p : InputPayload) : bool :=
  (same (headers ctx !! "op-log-request") "true" || negb (isFineTune p))
  && negb (same (headers ctx !! "op-log-request") "false")
  && negb (readOnly (key ctx)).

(** The custom-model branch of the router. *)
Definition fineTuneCompletion (e : Env) (ctx : Ctx) (p : InputPayload)
  : M Frame (Completion * option FineTune) :=
  let modelSlug := removeFirst "openpipe:" (model p) in
  found <- await (FindUnique modelSlug) (findUnique e modelSlug) ;;
  match found with
  | None =>
      throw (TRPCError NOT_FOUND
               ("The model `" +:+ model p +:+ "` does not exist"))
  | Some fineTune =>
      let typedFT := typedFineTune fineTune in
      if negb (String.eqb (ft_projectId typedFT) (projectId (key ctx)))
      then throw (TRPCError FORBIDDEN
                    "The model does not belong to this project")
      else
        completion <-
          try_catch
            (await (GetCompletion2 typedFT p) (getCompletion2 e typedFT p))
            (fun error =>
               perform (ConsoleError (message error)) ;;;
               throw (TRPCError BAD_REQUEST
                        ("Failed to get fine-tune completion: "
                           +:+ message error))) ;;
        ret (completion, Some fineTune)
  end.

(** The upstream branch of the router. *)
Definition openaiCompletion (e : Env) (ctx : Ctx) (input : Input)
    (p : InputPayload) : M Frame (Completion * option FineTune) :=
  completion <-
    try_catch
      (await (GetOpenaiCompletion (projectId (key ctx)) p (in_stream input))
             (getOpenaiCompletion e (projectId (key ctx)) p
                (in_stream input)))
      (fun error =>
         match error with
         | APIError status msg =>
             (* Pass through OpenAI API errors *)
             throw (TRPCError (trpcCodeFromHttpStatus e status) msg)
         | _ =>
             throw (TRPCError BAD_REQUEST
                      ("Failed to get OpenAI completion: "
                         +:+ message error))
         end) ;;
  ret (completion, None).

(** The [op-tags] header, when it is there. *)
Definition headerTags (e : Env) (ctx : Ctx) : M Frame unit :=
  match headers ctx !! "op-tags" with
  | Some header =>
      if truthy (Some header)
      then
        try_catch
          (jsonTags <- lift (JSON_parse e header) ;;
           parsed <- lift (parseTags e jsonTags) ;;
           assignTags parsed)
          (fun error =>
             throw (TRPCError BAD_REQUEST
                      ("Failed to parse tags: " +:+ message error)))
      else ret tt
  | None => ret tt
  end.

(** [if (completion instanceof Stream) { ... } else { ... }]: usage
    recording is launched, not awaited, and the caller is answered. *)
Definition respond (e : Env) (ctx : Ctx) (p : InputPayload)
    (requestedAt : Z) (completion : Completion) (fineTune : option FineTune)
  : M Frame Response :=
  tags <- readTags ;;
  let usageArgs recordable :=
    {| ru_projectId := projectId (key ctx);
       ru_requestedAt := requestedAt;
       ru_receivedAt := dateNow e 1;
       ru_inputPayload := p;
       ru_completion := recordable;
       ru_logRequest := logRequest ctx p;
       ru_fineTune := fineTune;
       ru_tags := tags |} in
  match completion with
  | Streamed chunks =>
      (* split stream to avoid locking the read mutex *)
      let split := tee chunks in
      let recordStream := BranchOf split LeftBranch in
      let outputStream := Readable split RightBranch in
      perform (Detached {| recorder := RecordUsage (usageArgs recordStream);
                           caught := true |}) ;;;
      ret outputStream
  | Single c =>
      perform (Detached {| recorder := RecordUsage (usageArgs (Whole c));
                           caught := true |}) ;;;
      ret (Completed c)
  end.

(** The body of the outer [try]. *)
Definition attempt (e : Env) (ctx : Ctx) (input : Input) (p : InputPayload)
    (requestedAt : Z) : M Frame Response :=
  headerTags e ctx ;;;
  routed <-
    (if isFineTune p then fineTuneCompletion e ctx p
     else openaiCompletion e ctx input p) ;;
  respond e ctx p requestedAt (fst routed) (snd routed).

(** The outer [catch]. *)
Definition recover (e : Env) (ctx : Ctx) (p : InputPayload) (requestedAt : Z)
    (error : JsError) : M Frame Response :=
  match error with
  | TRPCError code msg =>
      let statusCode := statusCodeFromTrpcCode e code in
      tags <- readTags ;;
      (* record error in request log *)
      perform (Detached
                 {| recorder :=
                      RecordLoggedCall
                        {| lc_projectId := projectId (key ctx);
                           lc_usage := None;
                           lc_requestedAt := requestedAt;
                           lc_receivedAt := Some (dateNow e 1);
                           lc_reqPayload := payload p;
                           lc_respPayload :=
                             Some (JObj [("code", JStr (code_key code));
                                         ("message", JStr msg)]);
                           lc_statusCode := Some statusCode;
                           lc_errorMessage := Some msg;
                           lc_tags := tags |};
                    caught := false |}) ;;;
      throw (ExtendedTRPCError code msg statusCode msg)
  | _ => throw error
  end.

(** ["reqPayload" in input ? parse(input.reqPayload) : parse(input)] *)
Definition parseInput (e : Env) (input : Input) : JsError + InputPayload :=
  match in_reqPayload input with
  | Some reqPayload => chatCompletionInputReqPayload e reqPayload
  | None => chatCompletionInputReqPayload e (in_object input)
  end.

Definition createChatCompletion (e : Env) (ctx : Ctx) (input : Input)
  : M Frame Response :=
  inputPayload <- lift (parseInput e input) ;;
  let requestedAt := dateNow e 0 in
  try_catch (attempt e ctx input inputPayload requestedAt)
            (recover e ctx inputPayload requestedAt).

(** ** The log store and the recorders *)

(** The durable log, the exceptions handed to [captureException], and the
    rejections that nothing handled. *)
Record Store : Type :=
  { loggedCalls : list LoggedCall;
    sentry : list string;
    unhandled : list string }.

Definition append (row : LoggedCall) : M Store unit :=
  fun s => ({| loggedCalls := loggedCalls s ++ [row];
               sentry := sentry s;
               unhandled := unhandled s |}, inr tt).

(** Modelled from the spec: [recordLoggedCall] (utils/recordRequest) is
    missing from the sources.  Section 4.7: it writes one Logged Call, and
    section 6: the log store is append-only.  It rejects when the storage
    write does, which is what [report] catches. *)
Definition recordLoggedCall (e : Env) (row : LoggedCall) : M Store unit :=
  match writeFault e with
  | Some m => throw (Error m)
  | None => append row
  end.

(** The completion that the accounting side works on: a streamed one is
    read to its end and its chunks merged. *)
Definition settled (e : Env) (r : Recordable) : option ChatCompletion :=
  match r with
  | Whole c => Some c
  | BranchOf t b => mergeChunks e (readAll b t)
  end.

(** Modelled from the spec: [recordUsage] (utils/recordRequest) is missing
    from the sources.  Section 2: the accounting branch is drained into the
    Usage Calculator, then the Call Recorder; sections 3 and 6: every
    dispatch attempt writes one Logged Call; section 8: a served call is
    logged with status code 200.  The spec gives the [logRequest] argument
    no part in this: the argument is handed over as the source hands it
    over, and the recorder described there does not read it. *)
Definition recordUsage (e : Env) (a : UsageArgs) : M Store unit :=
  let completion := settled e (ru_completion a) in
  let usage :=
    calculateUsage e (ru_inputPayload a) completion (ru_fineTune a) in
  recordLoggedCall e
    {| lc_projectId := ru_projectId a;
       lc_usage := usage;
       lc_requestedAt := ru_requestedAt a;
       lc_receivedAt := Some (ru_receivedAt a);
       lc_reqPayload := payload (ru_inputPayload a);
       lc_respPayload := completion;
       lc_statusCode := Some 200;
       lc_errorMessage := None;
       lc_tags := ru_tags a |}.

Definition record (e : Env) (r : Recorder) : M Store unit :=
  match r with
  | RecordUsage a => recordUsage e a
  | RecordLoggedCall row => recordLoggedCall e row
  end.

Definition captureException (m : string) (s : Store) : Store :=
  {| loggedCalls := loggedCalls s; sentry := sentry s ++ [m];
     unhandled := unhandled s |}.

Definition unhandledRejection (m : string) (s : Store) : Store :=
  {| loggedCalls := loggedCalls s; sentry := sentry s;
     unhandled := unhandled s ++ [m] |}.

(** A detached task runs to its end; a rejection goes to the chained
    [.catch] when there is one. *)
Definition settle (e : Env) (s : Store) (t : Task) : Store :=
  match record e (recorder t) s with
  | (s', inr _) => s'
  | (s', inl error) =>
      if caught t then captureException (message error) s'
      else unhandledRejection (message error) s'
  end.

Definition detached (tr : list Effect) : list Task :=
  omap (fun ef => match ef with Detached t => Some t | _ => None end) tr.

(** One request, start to end: the handler answers the caller, then the
    tasks it detached are settled against the store. *)
Definition serve (e : Env) (ctx : Ctx) (input : Input) (s : Store)
  : (JsError + Response) * list Effect * Store :=
  let '(f, answer) := createChatCompletion e ctx input enter in
  (answer, trace f, foldl (settle e) s (detached (trace f))).

(** A call to the serving endpoint of one of the two providers. *)
Definition isProviderCall (ef : Effect) : bool :=
  match ef with
  | GetCompletion2 _ _ | GetOpenaiCompletion _ _ _ => true
  | _ => false
  end.

(** The same collaborators over a log store with another write fault. *)
Definition withWriteFault (fault : option string) (e : Env) : Env :=
  {| chatCompletionInputReqPayload := chatCompletionInputReqPayload e;
     JSON_parse := JSON_parse e;
     parseTags := parseTags e;
     fineTunes := fineTunes e;
     readFault := readFault e;
     getCompletion2 := getCompletion2 e;
     getOpenaiCompletion := getOpenaiCompletion e;
     trpcCodeFromHttpStatus := trpcCodeFromHttpStatus e;
     statusCodeFromTrpcCode := statusCodeFromTrpcCode e;
     reqValidator := reqValidator e;
     chatCompletionOutput := chatCompletionOutput e;
     calculateUsage := calculateUsage e;
     mergeChunks := mergeChunks e;
     dateNow := dateNow e;
     writeFault := fault |}.

Definition answer (r : (JsError + Response) * list Effect * Store)
  : JsError + Response := fst (fst r).
Definition calls (r : (JsError + Response) * list Effect * Store)
  : list Effect := snd (fst r).
Definition after (r : (JsError + Response) * list Effect * Store)
  : Store := snd r.

(** ** report *)

Record ReportInput : Type :=
  { rp_requestedAt : option Z;
    rp_receivedAt : option Z;
    rp_reqPayload : Json;
    rp_respPayload : option Json;
    rp_statusCode : option Z;
    rp_errorMessage : option string;
    rp_tags : Json }.

(** [{ status: "ok" | "error" }] *)
Inductive ReportStatus : Type := StatusOk | StatusError.

(** [schema.spa(value)] on an optional field: an object schema does not
    accept [undefined]. *)
Definition spa {A} (schema : Json -> option A) (value : option Json)
  : option A := value ≫= schema.

(** [if (!input.requestedAt) input.requestedAt = Date.now()] *)
Definition requestedAtOrNow (e : Env) (input : ReportInput) : Z :=
  match rp_requestedAt input with
  | Some t => if t =? 0 then dateNow e 0 else t
  | None => dateNow e 0
  end.

Definition report (e : Env) (ctx : Ctx) (input : ReportInput)
  : M Store ReportStatus :=
  if readOnly (key ctx)
  then throw (TRPCError FORBIDDEN "Read-only API keys cannot report API calls")
  else
    (* Zod default messes up the generated OpenAPI spec, so we do it manually *)
    let requestedAt := requestedAtOrNow e input in
    let reqPayload := spa (reqValidator e) (Some (rp_reqPayload input)) in
    let respPayload := spa (chatCompletionOutput e) (rp_respPayload input) in
    usage <-
      match reqPayload, respPayload with
      | Some reqData, Some respData =>
          fineTune <-
            lift (findUnique e (removeFirst "openpipe:" (model reqData))) ;;
          ret (calculateUsage e reqData (Some respData) fineTune)
      | _, _ => ret None
      end ;;
    tags <-
      try_catch (lift (parseTags e (rp_tags input)))
        (fun err =>
           throw (TRPCError BAD_REQUEST
                    ("Failed to parse tags: " +:+ message err))) ;;
    try_catch
      (recordLoggedCall e
         {| lc_projectId := projectId (key ctx);
            lc_usage := usage;
            lc_requestedAt := requestedAt;
            lc_receivedAt := rp_receivedAt input;
            lc_reqPayload := rp_reqPayload input;
            lc_respPayload := rp_respPayload input;
            lc_statusCode := rp_statusCode input;
            lc_errorMessage := rp_errorMessage input;
            lc_tags := tags |})
      (fun err =>
         throw (TRPCError BAD_REQUEST
                  ("Failed to create logged call: " +:+ message err))) ;;;
    ret StatusOk.

(** ** A concrete deployment

    One project with one custom model, and collaborators simple enough to
    run: the scenarios of the specification are evaluated against it. *)
Module Scenario.

(** Modelled from the spec: the status-code tables
    (server/utils/trpcStatusCodes) are missing from the sources.  Section
    4.8 gives not found as 404, forbidden as 403 and bad request as 400;
    the other keys take the HTTP status that tRPC gives them. *)
Definition statusOfCode (c : TrpcCode) : Z :=
  match c with
  | PARSE_ERROR => 400 | BAD_REQUEST => 400
  | INTERNAL_SERVER_ERROR => 500 | NOT_IMPLEMENTED => 501
  | UNAUTHORIZED => 401 | FORBIDDEN => 403 | NOT_FOUND => 404
  | METHOD_NOT_SUPPORTED => 405 | TIMEOUT => 408 | CONFLICT => 409
  | PRECONDITION_FAILED => 412 | PAYLOAD_TOO_LARGE => 413
  | UNPROCESSABLE_CONTENT => 422 | TOO_MANY_REQUESTS => 429
  | CLIENT_CLOSED_REQUEST => 499
  end.

(** Modelled from the spec: missing like the table above; section 4.8
    asks for the provider's own status class.  A status without a key of
    its own is an internal server error, and so is a missing status. *)
Definition codeOfStatus (status : option Z) : TrpcCode :=
  match status with
  | None => INTERNAL_SERVER_ERROR
  | Some status =>
      if status =? 400 then BAD_REQUEST
      else if status =? 401 then UNAUTHORIZED
      else if status =? 403 then FORBIDDEN
      else if status =? 404 then NOT_FOUND
      else if status =? 408 then TIMEOUT
      else if status =? 409 then CONFLICT
      else if status =? 412 then PRECONDITION_FAILED
      else if status =? 413 then PAYLOAD_TOO_LARGE
      else if status =? 422 then UNPROCESSABLE_CONTENT
      else if status =? 429 then TOO_MANY_REQUESTS
      else if status =? 501 then NOT_IMPLEMENTED
      else INTERNAL_SERVER_ERROR
  end.

(** A payload is taken when it is an object that starts with its model. *)
Definition modelOf (j : Json) : option InputPayload :=
  match j with
  | JObj (("model", JStr m) :: _) => Some {| model := m; payload := j |}
  | _ => None
  end.

Definition parsePayload (j : Json) : JsError + InputPayload :=
  match modelOf j with
  | Some p => inr p
  | None => inl (ZodError "Required")
  end.

(** Only the empty object is read; anything else is a syntax error. *)
Definition parseJson (text : string) : JsError + Json :=
  if String.eqb text "{}" then inr (JObj [])
  else inl (Error "Unexpected end of JSON input").

Definition parseFlatTags (j : Json) : JsError + gmap string string :=
  match j with
  | JObj [] => inr ∅
  | JObj [(k, JStr v)] => inr {[ k := v ]}
  | _ => inl (Error "Tags must be a flat object")
  end.

Definition supportBot : FineTune :=
  {| ft_id := "ft-1"; ft_slug := "support-bot";
     ft_projectId := "project-1" |}.

Definition hello : ChatCompletion :=
  JObj [("id", JStr "cmpl-1"); ("content", JStr "hello")].

Definition chunk (n : Z) : ChatCompletionChunk :=
  JObj [("id", JStr "cmpl-1"); ("index", JNum n)].

Definition completionOf (j : Json) : option ChatCompletion :=
  match j with
  | JObj (("id", JStr _) :: _) => Some j
  | _ => None
  end.

Definition usageOf (p : InputPayload) (c : option ChatCompletion)
    (ft : option FineTune) : option CalculatedUsage :=
  match c with
  | Some _ => Some {| inputTokens := 8; outputTokens := 2; cost := 10 |}
  | None => None
  end.

Definition merged (chunks : list ChatCompletionChunk)
  : option ChatCompletion :=
  match chunks with
  | [] => None
  | _ => Some (JObj [("id", JStr "cmpl-1"); ("chunks", JArr chunks)])
  end.

(** The deployment; [upstream] is what the upstream provider does with
    every request, [write] the fault of the log store if it has one. *)
Definition deployment (upstream : JsError + Completion)
    (write : option string) : Env :=
  {| chatCompletionInputReqPayload := parsePayload;
     JSON_parse := parseJson;
     parseTags := parseFlatTags;
     fineTunes := {[ "support-bot" := supportBot ]};
     readFault := None;
     getCompletion2 := fun _ _ => inr (Single hello);
     getOpenaiCompletion := fun _ _ _ => upstream;
     trpcCodeFromHttpStatus := codeOfStatus;
     statusCodeFromTrpcCode := statusOfCode;
     reqValidator := modelOf;
     chatCompletionOutput := completionOf;
     calculateUsage := usageOf;
     mergeChunks := merged;
     dateNow := fun n => 1700000000000 + Z.of_nat n;
     writeFault := write |}.

Definition healthy : Env := deployment (inr (Single hello)) None.

Definition streaming : Env :=
  deployment (inr (Streamed [chunk 0; chunk 1; chunk 2])) None.

Definition caller (ro : bool) (hs : gmap string string) : Ctx :=
  {| key := {| projectId := "project-1"; readOnly := ro |};
     headers := hs |}.

Definition request (m : string) (str : bool) : Input :=
  {| in_reqPayload := None;
     in_object := JObj [("model", JStr m);
                        ("messages", JArr [JObj [("role", JStr "user");
                                                 ("content", JStr "hi")]])];
     in_stream := str |}.

Definition blank : Store :=
  {| loggedCalls := []; sentry := []; unhandled := [] |}.

Definition reported (req : Json) (resp : option Json) : ReportInput :=
  {| rp_requestedAt := None; rp_receivedAt := None;
     rp_reqPayload := req; rp_respPayload := resp;
     rp_statusCode := Some 200; rp_errorMessage := None;
     rp_tags := JObj [] |}.

End Scenario.

(** The same collaborators over a custom-model table whose reads fail. *)
Definition withReadFault (fault : option string) (e : Env) : Env :=
  {| chatCompletionInputReqPayload := chatCompletionInputReqPayload e;
     JSON_parse := JSON_parse e;
     parseTags := parseTags e;
     fineTunes := fineTunes e;
     readFault := fault;
     getCompletion2 := getCompletion2 e;
     getOpenaiCompletion := getOpenaiCompletion e;
     trpcCodeFromHttpStatus := trpcCodeFromHttpStatus e;
     statusCodeFromTrpcCode := statusCodeFromTrpcCode e;
     reqValidator := reqValidator e;
     chatCompletionOutput := chatCompletionOutput e;
     calculateUsage := calculateUsage e;
     mergeChunks := mergeChunks e;
     dateNow := dateNow e;
     writeFault := writeFault e |}.

(** The same collaborators with another custom-model endpoint. *)
Definition withCustomModel
    (endpoint : FineTune -> InputPayload -> JsError + Completion) (e : Env)
  : Env :=
  {| chatCompletionInputReqPayload := chatCompletionInputReqPayload e;
     JSON_parse := JSON_parse e;
     parseTags := parseTags e;
     fineTunes := fineTunes e;
     readFault := readFault e;
     getCompletion2 := endpoint;
     getOpenaiCompletion := getOpenaiCompletion e;
     trpcCodeFromHttpStatus := trpcCodeFromHttpStatus e;
     statusCodeFromTrpcCode := statusCodeFromTrpcCode e;
     reqValidator := reqValidator e;
     chatCompletionOutput := chatCompletionOutput e;
     calculateUsage := calculateUsage e;
     mergeChunks := mergeChunks e;
     dateNow := dateNow e;
     writeFault := writeFault e |}.

(** The tags that a launched recorder was given. *)
Definition taskTags (t : Task) : gmap string string :=
  match recorder t with
  | RecordUsage a => ru_tags a
  | RecordLoggedCall row => lc_tags row
  end.

(** What the caller reads when a served completion is handed over: the
    completion itself, or the output branch of the stream split. *)
Definition handedOver (completion : Completion) : Response :=
  match completion with
  | Single c => Completed c
  | Streamed chunks => Readable (tee chunks) RightBranch
  end.

(** ** localTestingOnlyGetLatestLoggedCall *)

(** The rows of the log as the query reads them, with their tag rows. *)
Record LoggedCallTag : Type := { tag_name : string; tag_value : option string }.

Record LoggedCallRow : Type :=
  { row_id : string;
    row_createdAt : Z;
    row_projectId : string;
    row_requestedAt : Z;
    row_statusCode : option Z;
    row_errorMessage : option string;
    row_reqPayload : Json;
    row_respPayload : Json;
    row_tags : list LoggedCallTag }.

(** What the procedure returns for the row it has found. *)
Record LatestLoggedCall : Type :=
  { latest_createdAt : Z;
    latest_id : string;
    latest_statusCode : option Z;
    latest_errorMessage : option string;
    latest_reqPayload : Json;
    latest_respPayload : Json;
    latest_tags : gmap string (option string) }.

(** [Object.fromEntries]: a later entry replaces an earlier one of the
    same key. *)
Definition fromEntries {V} (entries : list (string * V)) : gmap string V :=
  foldl (fun m entry => <[entry.1 := entry.2]> m) ∅ entries.

(** [orderBy: { requestedAt: "desc" }], first row: the row kept so far
    gives way to a row requested later. *)
Definition later (kept : option LoggedCallRow) (row : LoggedCallRow)
  : option LoggedCallRow :=
  match kept with
  | None => Some row
  | Some k =>
      if row_requestedAt k <? row_requestedAt row then Some row else Some k
  end.

(** The row that [where: { projectId }, orderBy: { requestedAt: "desc" }]
    selects; among rows requested at the same time the first of the table
    is taken. *)
Definition latestOf (project : string) (table : list LoggedCallRow)
  : option LoggedCallRow :=
  foldl later None (filter (fun row => row_projectId row = project) table).

(** [prisma.loggedCall.findFirst({ where, orderBy, select })]: the read
    rejects when the storage does, like the read of the custom-model
    table. *)
Definition findFirst (e : Env) (project : string)
    (table : list LoggedCallRow) : JsError + option LoggedCallRow :=
  match readFault e with
  | Some m => inl (Error m)
  | None => inr (latestOf project table)
  end.

(** [{ ...latestLoggedCall, tags: Object.fromEntries(...) }] *)
Definition withTagObject (row : LoggedCallRow) : LatestLoggedCall :=
  {| latest_createdAt := row_createdAt row;
     latest_id := row_id row;
     latest_statusCode := row_statusCode row;
     latest_errorMessage := row_errorMessage row;
     latest_reqPayload := row_reqPayload row;
     latest_respPayload := row_respPayload row;
     latest_tags :=
       fromEntries (map (fun tag => (tag_name tag, tag_value tag))
                        (row_tags row)) |}.

(** The procedure; [nodeEnv] is [process.env.NODE_ENV]. *)
Definition localTestingOnlyGetLatestLoggedCall (e : Env)
    (nodeEnv : option string) (ctx : Ctx) (table : list LoggedCallRow)
  : JsError + option LatestLoggedCall :=
  if same nodeEnv "production"
  then inl (Error "This operation is not allowed in production environment")
  else
    match findFirst e (projectId (key ctx)) table with
    | inl error => inl error
    | inr latestLoggedCall => inr (withTagObject <$> latestLoggedCall)
    end.

(** ** The head-to-head comparison modal *)

(** A JavaScript number: a score is a double, and every finite double is
    a rational. *)
Inductive JsNumber : Type :=
| NaN
| Infinity (positive : bool)
| Finite (q : Q).

(** [n < 0.5], [n === 0.5] and [n > 0.5] *)
Definition belowHalf (n : JsNumber) : bool :=
  match n with
  | NaN => false
  | Infinity positive => negb positive
  | Finite q => match Qcompare q (1 # 2) with Lt => true | _ => false end
  end.

Definition isHalf (n : JsNumber) : bool :=
  match n with
  | Finite q => match Qcompare q (1 # 2) with Eq => true | _ => false end
  | _ => false
  end.

Definition aboveHalf (n : JsNumber) : bool :=
  match n with
  | NaN => false
  | Infinity positive => positive
  | Finite q => match Qcompare q (1 # 2) with Gt => true | _ => false end
  end.

(** What the modal reads of a comparison result: [score] is a number or
    null. *)
Record ComparisonResult : Type :=
  { cr_modelId : string;
    cr_status : string;
    cr_score : option JsNumber }.

(** [isNumber(result.score) && result.score < 0.5],
    [result.score === 0.5] and
    [isNumber(result.score) && result.score > 0.5] *)
Definition isWin (result : ComparisonResult) : bool :=
  match cr_score result with Some n => belowHalf n | None => false end.

Definition isTie (result : ComparisonResult) : bool :=
  match cr_score result with Some n => isHalf n | None => false end.

Definition isLoss (result : ComparisonResult) : bool :=
  match cr_score result with Some n => aboveHalf n | None => false end.

(** [[numWins, numTies, numLosses]] of the modal's header; [entry] is
    [data?.entry]. *)
Definition tally (entry : option (list ComparisonResult)) : nat * nat * nat :=
  match entry with
  | None => (0, 0, 0)%nat
  | Some comparisonResults =>
      (length (filter (fun result => isWin result = true) comparisonResults),
       length (filter (fun result => isTie result = true) comparisonResults),
       length (filter (fun result => isLoss result = true) comparisonResults))
  end.

(** What [comparisonText] evaluates to: a coloured text, null, or nothing
    at all when no branch returns. *)
Inductive Rendered : Type :=
| Text (color : string) (text : string)
| Null
| Undefined.

(** [comparisonText] of [CollapsibleResult] *)
Definition comparisonText (result : ComparisonResult) : Rendered :=
  if String.eqb (cr_status result) "PENDING" then Text "gray.500" "PENDING"
  else if String.eqb (cr_status result) "IN_PROGRESS"
  then Text "gray.500" "IN PROGRESS"
  else if String.eqb (cr_status result) "ERROR" then Text "red.500" "ERROR"
  else
    match cr_score result with
    | None => Null
    | Some score =>
        if belowHalf score then Text "green.500" "WIN"
        else if isHalf score then Text "gray.500" "TIE"
        else if aboveHalf score then Text "red.500" "LOSS"
        else Undefined
    end.

(** A result whose text is decided by its score. *)
Definition settledStatus (result : ComparisonResult) : bool :=
  negb (String.eqb (cr_status result) "PENDING")
  && negb (String.eqb (cr_status result) "IN_PROGRESS")
  && negb (String.eqb (cr_status result) "ERROR").

(** A result that the tallies leave out: its score is null or not a
    number to compare. *)
Definition unscored (result : ComparisonResult) : bool :=
  match cr_score result with
  | None | Some NaN => true
  | Some _ => false
  end.

(** Whether the text shown for a result is the given one. *)
Definition shows (text : string) (result : ComparisonResult) : bool :=
  match comparisonText result with
  | Text _ shown => String.eqb shown text
  | _ => false
  end.

(** ** Authentication options *)

Record User : Type :=
  { user_id : string;
    user_email : option string;
    user_image : option string;
    user_name : option string }.

Record Account : Type :=
  { account_userId : string;
    account_provider : string;
    account_type : string;
    account_providerAccountId : string }.

Record Session : Type :=
  { session_token : string; session_userId : string; expires : Z }.

(** The tables that the options read and write, the cookies of the
    request at hand ([req] and [res] of [getCookie] and [setCookie]), what
    was printed on the console, and the user set on the error reporter. *)
Record AuthWorld : Type :=
  { users : list User;
    accounts : list Account;
    sessions : list Session;
    cookies : gmap string string;
    consoleLog : list (option string);
    sentryUser : option string }.



(** [prisma.user.findUnique({ where: { email } })] *)
Definition findUserByEmail (email : string) (w : AuthWorld) : option User :=
  List.find (fun u => bool_decide (user_email u = Some email)) (users w).

(** [authorize] of the credentials provider; [cuid] is the id that the
    table gives to a user it creates.  The reads and writes of the tables
    are the ones of a database that answers. *)
Definition authorize (cuid : string) (credentials : option (gmap string string))
  : M AuthWorld User :=
  let email := credentials ≫= (fun c => c !! "email") in
  if negb (truthy email)
  then throw (Error "Email is required")
  else
    match email with
    | None => throw (Error "Email is required")
    | Some email =>
        try_catch
          (fun w =>
             match findUserByEmail email w with
             | Some user => (w, inr user)
             | None =>
                 let user := {| user_id := cuid; user_email := Some email;
                                user_image := None; user_name := None |} in
                 ({| users := users w ++ [user];
                     accounts :=
                       accounts w
                       ++ [{| account_userId := user_id user;
                              account_provider := "credentials";
                              account_type := "credentials";
                              account_providerAccountId := user_id user |}];
                     sessions := sessions w;
                     cookies := cookies w;
                     consoleLog := consoleLog w;
                     sentryUser := sentryUser w |}, inr user)
             end)
          (fun error => throw error)
    end.









(** ** importDatasetEntries *)

(** The fields of the upload record that the import reads. *)
Record DatasetFileUpload : Type := { blobName : string; fileSize : Z }.

(** The [data] of an update of the upload record: the fields it sets. *)
Record UploadUpdate : Type :=
  { set_status : option string;
    set_progress : option Z;
    set_errorMessage : option string;
    set_visible : option bool }.

(** A parsed line of the file: a parse error with its line, or a row. *)
Inductive ParsedRow : Type :=
| ParseError (line : Z) (error : string)
| RowToImport (row : Json).

Record EntryToImport : Type := { entry_row : Json; importId : string }.

Record PreparedEntries : Type :=
  { datasetEntryInputsToCreate : list Json;
    datasetEntryOutputsToCreate : list Json;
    nodeDataToCreate : list Json }.

(** The calls that the import awaits, in order. *)
Inductive ImportCall : Type :=
| FindUpload
| UpdateUpload (data : UploadUpdate)
| DownloadBlob (blob : string) (maxEntriesToImport : Z)
| CreateManyInputs (data : list Json)
| CreateManyOutputs (data : list Json)
| CreateManyNodeData (data : list Json)
| EnqueueCountTokens.

(** The collaborators of the import: the upload record that the lookup
    finds, the calls that the storage or the queue rejects, the download
    with the progress it reports before it ends, the row parser, the clock,
    the id generator and the preparation of the rows.  [floorScaled k i n]
    is [Math.floor(k * (i / n))], which the source computes in doubles. *)
Record ImportEnv : Type :=
  { fileUpload : option DatasetFileUpload;
    rejects : ImportCall -> option string;
    downloadBlobToStrings :
      string -> Z -> list Z * (JsError + list string);
    parseRowsToImport : list string -> list ParsedRow;
    toISOString : string;
    generateImportId : string -> string -> string;
    prepareDatasetEntriesForImport :
      string -> string -> string -> list EntryToImport ->
      JsError + PreparedEntries;
    floorScaled : Z -> Z -> Z -> Z }.

(** An awaited call: it is made, and it returns or rejects. *)
Definition call (e : ImportEnv) (c : ImportCall) : M (list ImportCall) unit :=
  fun made =>
    match rejects e c with
    | Some m => (made ++ [c], inl (Error m))
    | None => (made ++ [c], inr tt)
    end.

Definition updateDatasetFileUpload (e : ImportEnv) (data : UploadUpdate)
  : M (list ImportCall) unit := call e (UpdateUpload data).

Definition noUpdate : UploadUpdate :=
  {| set_status := None; set_progress := None; set_errorMessage := None;
     set_visible := None |}.

Definition progressUpdate (progress : Z) : UploadUpdate :=
  {| set_status := None; set_progress := Some progress;
     set_errorMessage := None; set_visible := None |}.

Definition statusUpdate (status : string) (progress : Z) : UploadUpdate :=
  {| set_status := Some status; set_progress := Some progress;
     set_errorMessage := None; set_visible := None |}.

(** An index of [slice], counted from the end when it is negative, and
    kept within the array. *)
Definition relativeIndex (len i : Z) : Z :=
  if i <? 0 then Z.max (len + i) 0 else Z.min i len.

(** [array.slice(start, end)] *)
Definition slice {A} (start stop : Z) (l : list A) : list A :=
  let len := Z.of_nat (length l) in
  let from := relativeIndex len start in
  let to := relativeIndex len stop in
  take (Z.to_nat (to - from)) (drop (Z.to_nat from) l).

(** [rowsToImport.filter(isParseError)] and
    [rowsToImport.filter(isRowToImport)] *)
Definition errorRows (rows : list ParsedRow) : list (Z * string) :=
  omap (fun r => match r with
                 | ParseError line error => Some (line, error)
                 | RowToImport _ => None
                 end) rows.

Definition goodRows (rows : list ParsedRow) : list Json :=
  omap (fun r => match r with
                 | RowToImport row => Some row
                 | ParseError _ _ => None
                 end) rows.

(** [!goodRows.length || errorRows.length > goodRows.length] *)
Definition tooManyErrors (rows : list ParsedRow) : bool :=
  bool_decide (length (goodRows rows) = 0%nat)
  || bool_decide (length (goodRows rows) < length (errorRows rows))%nat.

(** [goodRows.slice(0, maxEntriesToImport).map((row, index) => ...)] *)
Definition entriesToImport (e : ImportEnv) (nodeId : string)
    (maxEntriesToImport : Z) (good : list Json) : list EntryToImport :=
  imap (fun index row =>
          {| entry_row := row;
             importId :=
               generateImportId e
                 (toISOString e +:+ "-" +:+ pretty index) nodeId |})
       (slice 0 maxEntriesToImport good).

(** [for (let i = 0; i < rows.length; i += 1000)]: a batch is saved, then
    the progress.  The loop runs on fuel; one step for each row and one
    more is enough. *)
Fixpoint saveInBatches (e : ImportEnv) (fuel : nat)
    (createMany : list Json -> ImportCall) (base factor : Z)
    (rows : list Json) (i : Z) : M (list ImportCall) unit :=
  match fuel with
  | O => ret tt
  | S fuel' =>
      if i <? Z.of_nat (length rows)
      then
        let chunk := slice i (i + 1000) rows in
        call e (createMany chunk) ;;;
        updateDatasetFileUpload e
          (progressUpdate
             (base + floorScaled e factor i (Z.of_nat (length rows)))) ;;;
        saveInBatches e fuel' createMany base factor rows (i + 1000)
      else ret tt
  end.

Definition saveAll (e : ImportEnv) (createMany : list Json -> ImportCall)
    (base factor : Z) (rows : list Json) : M (list ImportCall) unit :=
  saveInBatches e (S (length rows)) createMany base factor rows 0.

(** The progress that the download reports, each written to the record. *)
Fixpoint reportProgress (e : ImportEnv) (upload : DatasetFileUpload)
    (reported : list Z) : M (list ImportCall) unit :=
  match reported with
  | [] => ret tt
  | progress :: rest =>
      updateDatasetFileUpload e
        (progressUpdate (5 + floorScaled e 60 progress (fileSize upload))) ;;;
      reportProgress e upload rest
  end.

(** The update made when too many lines fail to parse: the error of the
    first failing line, or of line 0 when there is none. *)
Definition invalidJsonl (errors : list (Z * string)) : UploadUpdate :=
  let error := default "No lines to import" (snd <$> head errors) in
  let line := default 0 (fst <$> head errors) in
  {| set_status := Some "ERROR"; set_progress := None;
     set_errorMessage :=
       Some ("Invalid JSONL on line " +:+ pretty line +:+ ": " +:+ error);
     set_visible := None |}.

Definition importDatasetEntries (e : ImportEnv)
    (projectId nodeId dataChannelId : string) (maxEntriesToImport : Z)
  : M (list ImportCall) unit :=
  call e FindUpload ;;;
  match fileUpload e with
  | None =>
      updateDatasetFileUpload e
        {| set_status := Some "ERROR"; set_progress := None;
           set_errorMessage := Some "Dataset File Upload not found";
           set_visible := None |}
  | Some datasetFileUpload =>
      updateDatasetFileUpload e (statusUpdate "DOWNLOADING" 5) ;;;
      call e (DownloadBlob (blobName datasetFileUpload)
                (maxEntriesToImport * 2)) ;;;
      let download :=
        downloadBlobToStrings e (blobName datasetFileUpload)
          (maxEntriesToImport * 2) in
      reportProgress e datasetFileUpload download.1 ;;;
      rawRows <- lift download.2 ;;
      let rowsToImport := parseRowsToImport e rawRows in
      let errors := errorRows rowsToImport in
      let good := goodRows rowsToImport in
      (if tooManyErrors rowsToImport
       then
         call e (UpdateUpload (invalidJsonl errors))
       else ret tt) ;;;
      updateDatasetFileUpload e (statusUpdate "PROCESSING" 60) ;;;
      let entries := entriesToImport e nodeId maxEntriesToImport good in
      match prepareDatasetEntriesForImport e projectId nodeId dataChannelId
              entries with
      | inl failure =>
          updateDatasetFileUpload e
            {| set_status := Some "ERROR"; set_progress := None;
               set_errorMessage :=
                 Some ("Error preparing rows: " +:+ message failure);
               set_visible := Some true |}
      | inr prepared =>
          updateDatasetFileUpload e (statusUpdate "SAVING" 70) ;;;
          (* save datasetEntryInputs in batches of 1000 *)
          saveAll e CreateManyInputs 70 10
            (datasetEntryInputsToCreate prepared) ;;;
          (* save datasetEntryOutputs in batches of 1000 *)
          saveAll e CreateManyOutputs 80 10
            (datasetEntryOutputsToCreate prepared) ;;;
          (* save nodeData in batches of 1000 *)
          saveAll e CreateManyNodeData 90 5 (nodeDataToCreate prepared) ;;;
          updateDatasetFileUpload e (progressUpdate 95) ;;;
          updateDatasetFileUpload e (progressUpdate 99) ;;;
          call e EnqueueCountTokens ;;;
          updateDatasetFileUpload e
            {| set_status := Some "COMPLETE"; set_progress := Some 100;
               set_errorMessage := None; set_visible := Some true |}
      end
  end.

(** The batches that a run has handed to the three [createMany]. *)
Definition inputBatches (made : list ImportCall) : list (list Json) :=
  omap (fun c => match c with CreateManyInputs d => Some d | _ => None end)
       made.

Definition outputBatches (made : list ImportCall) : list (list Json) :=
  omap (fun c => match c with CreateManyOutputs d => Some d | _ => None end)
       made.

Definition nodeDataBatches (made : list ImportCall) : list (list Json) :=
  omap (fun c => match c with CreateManyNodeData d => Some d | _ => None end)
       made.

(** The updates of the upload record that a run has made. *)
Definition updates (made : list ImportCall) : list UploadUpdate :=
  omap (fun c => match c with UpdateUpload d => Some d | _ => None end) made.

(** The upload record after an update: a field that the update sets takes
    its value, the others keep theirs. *)
Definition applyUpdate (record data : UploadUpdate) : UploadUpdate :=
  {| set_status := from_option Some (set_status record) (set_status data);
     set_progress :=
       from_option Some (set_progress record) (set_progress data);
     set_errorMessage :=
       from_option Some (set_errorMessage record) (set_errorMessage data);
     set_visible := from_option Some (set_visible record) (set_visible data) |}.

Definition uploadAfter (made : list ImportCall) : UploadUpdate :=
  foldl applyUpdate noUpdate (updates made).

(** The calls of a loop that has saved the given batches. *)
Definition batchCalls (createMany : list Json -> ImportCall)
    (batches : list (list Json * UploadUpdate)) : list ImportCall :=
  flat_map (fun batch => [createMany batch.1; UpdateUpload batch.2]) batches.

(** What a batch of the loops is like: between one and a thousand rows,
    followed by an update of the progress alone. *)
Definition wellSized (batch : list Json * UploadUpdate) : Prop :=
  (0 < length batch.1 <= 1000)%nat
  /\ set_status batch.2 = None
  /\ set_errorMessage batch.2 = None
  /\ set_visible batch.2 = None.

(** The last update of a finished import. *)
Definition completeUpdate : UploadUpdate :=
  {| set_status := Some "COMPLETE"; set_progress := Some 100;
     set_errorMessage := None; set_visible := Some true |}.

(** ** More of the concrete deployment *)
Module Cases.

(** A log with rows of two projects. *)
Definition logRow (id project : string) (requestedAt : Z)
    (rowTags : list LoggedCallTag) : LoggedCallRow :=
  {| row_id := id; row_createdAt := requestedAt + 5;
     row_projectId := project; row_requestedAt := requestedAt;
     row_statusCode := Some 200; row_errorMessage := None;
     row_reqPayload := JObj [("model", JStr "gpt-4")];
     row_respPayload := Scenario.hello; row_tags := rowTags |}.

Definition logTable : list LoggedCallRow :=
  [logRow "call-1" "project-1" 100 [];
   logRow "call-2" "project-2" 300 [];
   logRow "call-3" "project-1" 200
     [{| tag_name := "prompt"; tag_value := Some "v1" |};
      {| tag_name := "user"; tag_value := None |};
      {| tag_name := "prompt"; tag_value := Some "v2" |}]].

(** Results of a comparison, all settled. *)
Definition comparisons : list ComparisonResult :=
  [{| cr_modelId := "a"; cr_status := "COMPLETE";
      cr_score := Some (Finite (1 # 4)) |};
   {| cr_modelId := "b"; cr_status := "COMPLETE";
      cr_score := Some (Finite (2 # 4)) |};
   {| cr_modelId := "c"; cr_status := "COMPLETE";
      cr_score := Some (Finite (1 # 1)) |};
   {| cr_modelId := "d"; cr_status := "COMPLETE"; cr_score := None |}].

(** An empty authentication world, and a credentials callback request. *)
Definition nobody : AuthWorld :=
  {| users := []; accounts := []; sessions := []; cookies := ∅;
     consoleLog := []; sentryUser := None |}.


Definition ada : User :=
  {| user_id := "user-1"; user_email := Some "ada@example.com";
     user_image := None; user_name := None |}.

(** An import of a file whose lines are rows, but for the lines that
    read [oops]; every call is accepted and the rows are prepared as they
    are, unless [preparing] says otherwise. *)
Definition parseLine (index : nat) (line : string) : ParsedRow :=
  if String.eqb line "oops"
  then ParseError (Z.of_nat index + 1) "Unexpected token o"
  else RowToImport (JStr line).

Definition importOf (lines : list string) (preparing : option string)
  : ImportEnv :=
  {| fileUpload := Some {| blobName := "uploads/rows.jsonl"; fileSize := 64 |};
     rejects := fun _ => None;
     downloadBlobToStrings := fun _ _ => ([32; 64], inr lines);
     parseRowsToImport := imap parseLine;
     toISOString := "2023-11-14T22:13:20.000Z";
     generateImportId := fun uniquePrefix nodeId => nodeId +:+ "/" +:+ uniquePrefix;
     prepareDatasetEntriesForImport :=
       fun _ _ _ entries =>
         match preparing with
         | Some m => inl (Error m)
         | None =>
             inr {| datasetEntryInputsToCreate := map entry_row entries;
                    datasetEntryOutputsToCreate := map entry_row entries;
                    nodeDataToCreate :=
                      map (fun entry => JStr (importId entry)) entries |}
         end;
     floorScaled := fun factor i n => factor * i / n |}.

(** An import whose upload record is gone: the lookup finds nothing, and
    the update of the missing record is rejected. *)
Definition missingUpload : ImportEnv :=
  {| fileUpload := None;
     rejects := fun c => match c with
                         | UpdateUpload _ => Some "Record to update not found."
                         | _ => None
                         end;
     downloadBlobToStrings := fun _ _ => ([], inr []);
     parseRowsToImport := imap parseLine;
     toISOString := "2023-11-14T22:13:20.000Z";
     generateImportId := fun uniquePrefix nodeId => nodeId +:+ "/" +:+ uniquePrefix;
     prepareDatasetEntriesForImport :=
       fun _ _ _ _ => inl (Error "not reached");
     floorScaled := fun factor i n => factor * i / n |}.

End Cases.

(** * Properties *)

(** ** The stream split *)

Section Split.

Variable chunks : list ChatCompletionChunk.

Lemma split_of_tee : split_of chunks (tee chunks) unseen.
Proof. by split. Qed.

Lemma next_split_of b t s :
  split_of chunks t s ->
  split_of chunks (next b t).2 (observe b (next b t).1 s).
Proof.
  intros [Hl Hr]. unfold next.
  destruct b, t as [src lq rq]; simpl in *.
  - destruct lq as [|c q]; [destruct src as [|c rest]|]; simpl; split;
      simpl;
      solve [ rewrite <- Hl, <- ?app_assoc; done
            | rewrite <- Hr, <- ?app_assoc; done ].
  - destruct rq as [|c q]; [destruct src as [|c rest]|]; simpl; split;
      simpl;
      solve [ rewrite <- Hl, <- ?app_assoc; done
            | rewrite <- Hr, <- ?app_assoc; done ].
Qed.

Lemma consume_split_of schedule : forall t s,
  split_of chunks t s ->
  split_of chunks (consume schedule t s).1 (consume schedule t s).2.
Proof.
  induction schedule as [|b rest IH]; intros t s H; simpl; [done|].
  pose proof (next_split_of b t s H) as H'.
  destruct (next b t) as [o t']. by apply IH.
Qed.

(** A read delivers a chunk unless the branch has reached the end. *)
Lemma next_none b t :
  (next b t).1 = None -> buffered b t = [] /\ source t = [].
Proof.
  unfold next. destruct b, t as [src lq rq]; simpl.
  - destruct lq; [destruct src|]; simpl; by intros.
  - destruct rq; [destruct src|]; simpl; by intros.
Qed.

Lemma split_of_length b t s :
  split_of chunks t s ->
  length chunks
  = (length (seenBy b s) + length (buffered b t) + length (source t))%nat.
Proof.
  intros [Hl Hr].
  destruct b; simpl; [rewrite <- Hl at 1 | rewrite <- Hr at 1];
    rewrite !length_app; lia.
Qed.

Lemma observe_other b b' o s :
  b <> b' -> seenBy b' (observe b o s) = seenBy b' s.
Proof. by destruct b, b', o. Qed.

Lemma observe_same b o s :
  length (seenBy b (observe b o s))
  = (length (seenBy b s) + match o with Some _ => 1 | None => 0 end)%nat.
Proof. destruct b, o; simpl; rewrite ?length_app; simpl; lia. Qed.

Lemma reads_cons b b' schedule :
  reads b (b' :: schedule)
  = ((if decide (b' = b) then 1 else 0) + reads b schedule)%nat.
Proof.
  unfold reads. rewrite filter_cons. by destruct (decide (b' = b)).
Qed.

(** After a schedule, a branch has seen as many chunks as it has made
    reads, up to the length of the stream. *)
Lemma consume_length b schedule : forall t s,
  split_of chunks t s ->
  length (seenBy b (consume schedule t s).2)
  = ((length (seenBy b s) + reads b schedule) `min` length chunks)%nat.
Proof.
  induction schedule as [|b' rest IH]; intros t s H; simpl.
  - pose proof (split_of_length b t s H). unfold reads. simpl. lia.
  - pose proof (next_split_of b' t s H) as H'.
    pose proof (next_none b' t) as Hnone.
    pose proof (split_of_length b' t s H) as Hlen.
    destruct (next b' t) as [o t'] eqn:E; simpl in *.
    rewrite (IH _ _ H'), reads_cons.
    destruct (decide (b' = b)) as [->|Hne].
    + rewrite observe_same. destruct o; [lia|].
      destruct Hnone as [Hb Hs]; [done|]. rewrite Hb, Hs in Hlen.
      simpl in Hlen. lia.
    + rewrite observe_other by done. lia.
Qed.

Lemma seen_prefix b t s :
  split_of chunks t s -> seenBy b s = take (length (seenBy b s)) chunks.
Proof.
  intros [Hl Hr].
  destruct b; simpl; [rewrite <- Hl | rewrite <- Hr];
    by rewrite take_app_length.
Qed.

(** Whatever the pace of the two consumers, each has seen the first
    chunks of the stream, as many as it has read. *)
Lemma consume_take b schedule :
  seenBy b (consume schedule (tee chunks) unseen).2
  = take (reads b schedule) chunks.
Proof.
  pose proof (consume_split_of schedule _ _ split_of_tee) as H.
  pose proof (consume_length b schedule _ _ split_of_tee) as Hn.
  rewrite (seen_prefix b _ _ H), Hn.
  replace (length (seenBy b unseen)) with 0%nat by by destruct b.
  simpl. destruct (decide (reads b schedule <= length chunks)%nat).
  - by rewrite Nat.min_l.
  - rewrite Nat.min_r by lia. by rewrite !take_ge by lia.
Qed.

(** A branch that has made as many reads as the stream is long has seen
    the whole stream. *)
Lemma consume_all b schedule :
  (length chunks <= reads b schedule)%nat ->
  seenBy b (consume schedule (tee chunks) unseen).2 = chunks.
Proof. intros H. rewrite consume_take. by apply take_ge. Qed.

End Split.

(** Reading one branch to its end yields what it had buffered and what
    the source still held. *)
Lemma drain_rest b : forall fuel t,
  (length (buffered b t) + length (source t) < fuel)%nat ->
  drain fuel b t = buffered b t ++ source t.
Proof.
  induction fuel as [|n IH]; intros t Hlt; [lia|].
  simpl. unfold next.
  destruct b, t as [src lq rq]; simpl in *.
  - destruct lq as [|c q]; [destruct src as [|c rest]|]; simpl in *;
      try done; rewrite IH; simpl; try done; lia.
  - destruct rq as [|c q]; [destruct src as [|c rest]|]; simpl in *;
      try done; rewrite IH; simpl; try done; lia.
Qed.

Lemma readAll_tee b chunks : readAll b (tee chunks) = chunks.
Proof.
  unfold readAll. rewrite drain_rest by lia. by destruct b.
Qed.

(** However far the two consumers have got, a branch that is then read
    to its end completes what it has seen to the whole stream. *)
Lemma read_to_end chunks b schedule :
  let '(t, s) := consume schedule (tee chunks) unseen in
  seenBy b s ++ readAll b t = chunks.
Proof.
  pose proof (consume_split_of chunks schedule _ _ (split_of_tee chunks))
    as [Hl Hr].
  destruct (consume schedule (tee chunks) unseen) as [t s]. simpl in *.
  unfold readAll. rewrite drain_rest by lia. by destruct b.
Qed.

(** C5: for a streamed completion, the split made before the caller is
    answered hands the accounting side ([recordStream], given to
    [recordUsage]) and the caller ([outputStream]) the two branches of one
    split, and once each branch has been read as many times as the stream
    is long, in whatever interleaving, each has seen exactly the original
    sequence of chunks. *)
Theorem stream_split_branches_identical
    (e : Env) (ctx : Ctx) (p : InputPayload) (requestedAt : Z)
    (chunks : list ChatCompletionChunk) (fineTune : option FineTune)
    (f : Frame) (schedule : list Branch) :
  (length chunks <= reads LeftBranch schedule)%nat ->
  (length chunks <= reads RightBranch schedule)%nat ->
  exists split a,
    respond e ctx p requestedAt (Streamed chunks) fineTune f
    = ({| tags := tags f;
          trace := trace f ++ [Detached {| recorder := RecordUsage a;
                                           caught := true |}] |},
       inr (Readable split RightBranch))
    /\ ru_completion a = BranchOf split LeftBranch
    /\ seenLeft (consume schedule split unseen).2 = chunks
    /\ seenRight (consume schedule split unseen).2 = chunks.
Proof.
  intros Hl Hr. eexists (tee chunks), _.
  split; [cbv [respond bind readTags perform ret]; reflexivity|].
  split; [reflexivity|]. split.
  - exact (consume_all chunks LeftBranch schedule Hl).
  - exact (consume_all chunks RightBranch schedule Hr).
Qed.

Lemma stream_split_branches_identical_witness :
  let schedule := [RightBranch; RightBranch; LeftBranch; RightBranch;
                   LeftBranch; LeftBranch] in
  let chunks := [Scenario.chunk 0; Scenario.chunk 1; Scenario.chunk 2] in
  (length chunks <= reads LeftBranch schedule)%nat
  /\ (length chunks <= reads RightBranch schedule)%nat
  /\ exists split a,
       respond Scenario.streaming (Scenario.caller false ∅)
         {| model := "gpt-4"; payload := JNull |} 0 (Streamed chunks) None
         enter
       = ({| tags := ∅;
             trace := [] ++ [Detached {| recorder := RecordUsage a;
                                         caught := true |}] |},
          inr (Readable split RightBranch))
       /\ ru_completion a = BranchOf split LeftBranch
       /\ seenLeft (consume schedule split unseen).2 = chunks
       /\ seenRight (consume schedule split unseen).2 = chunks.
Proof.
  intros schedule chunks.
  assert (Hl : (length chunks <= reads LeftBranch schedule)%nat)
    by (vm_compute; lia).
  assert (Hr : (length chunks <= reads RightBranch schedule)%nat)
    by (vm_compute; lia).
  split; [exact Hl|]. split; [exact Hr|].
  exact (stream_split_branches_identical Scenario.streaming
           (Scenario.caller false ∅) {| model := "gpt-4"; payload := JNull |}
           0 chunks None enter schedule Hl Hr).
Defined.

(** ** The handlers *)

Ltac unfold_handler :=
  unfold serve, answer, calls, after, createChatCompletion, attempt, recover,
    respond, headerTags, fineTuneCompletion, openaiCompletion, await, perform,
    assignTags, readTags, findUnique, typedFineTune, bind, try_catch, lift,
    ret, throw in *.

Ltac unfold_recorders :=
  unfold settle, record, recordUsage, recordLoggedCall, append,
    captureException, unhandledRejection, bind, try_catch, lift, ret,
    throw in *.

Ltac cases := repeat (case_match; simplify_eq/=).

(** The handler never changes the trace while it reads the tags header. *)
Lemma headerTags_trace e ctx f :
  trace (headerTags e ctx f).1 = trace f.
Proof. unfold_handler. by cases. Qed.

(** The tags header is accepted exactly when it is missing or empty, or
    when it parses as JSON and then as tags. *)
Lemma headerTags_accepted e ctx f :
  (headerTags e ctx f).2 = inr tt
  <-> truthy (headers ctx !! "op-tags") = false
      \/ exists header json parsed,
           headers ctx !! "op-tags" = Some header
           /\ JSON_parse e header = inr json
           /\ parseTags e json = inr parsed.
Proof.
  unfold_handler. unfold truthy. split.
  - intros H. cases; eauto 10.
  - intros [H|(header & json & parsed & Hh & Hj & Hp)].
    + by cases.
    + rewrite Hh, Hj, Hp. simpl. by cases.
Qed.

(** A served request has launched exactly one [recordUsage], with the
    [.catch] chained on it. *)
Lemma createChatCompletion_served e ctx input f resp :
  createChatCompletion e ctx input enter = (f, inr resp) ->
  exists p a,
    parseInput e input = inr p
    /\ detached (trace f) = [{| recorder := RecordUsage a; caught := true |}]
    /\ ru_logRequest a = logRequest ctx p
    /\ ru_inputPayload a = p.
Proof.
  intros H. unfold_handler. cases; eauto 10.
Qed.

(** A request that fails has launched at most the logging of the failure,
    with nothing chained on it. *)
Lemma createChatCompletion_failed e ctx input p f failure :
  parseInput e input = inr p ->
  createChatCompletion e ctx input enter = (f, inl failure) ->
  match failure with
  | ExtendedTRPCError code msg status _ =>
      exists row,
        detached (trace f)
        = [{| recorder := RecordLoggedCall row; caught := false |}]
        /\ lc_statusCode row = Some status
        /\ status = statusCodeFromTrpcCode e code
        /\ lc_errorMessage row = Some msg
        /\ lc_respPayload row
           = Some (JObj [("code", JStr (code_key code));
                         ("message", JStr msg)])
        /\ lc_usage row = None
  | _ => detached (trace f) = []
  end.
Proof.
  intros Hp H. unfold_handler. rewrite Hp in H. cases; eauto 10.
Qed.

Lemma serve_unfold e ctx input s :
  serve e ctx input s
  = ((createChatCompletion e ctx input enter).2,
     trace (createChatCompletion e ctx input enter).1,
     foldl (settle e) s
       (detached (trace (createChatCompletion e ctx input enter).1))).
Proof. unfold serve. by destruct (createChatCompletion e ctx input enter). Qed.





(** With the log store accepting writes, settling a launched
    [recordLoggedCall] appends its row, and a launched [recordUsage]
    appends one row, with status code 200 and no error message. *)
Lemma settle_logged_call e s row c :
  writeFault e = None ->
  loggedCalls (settle e s {| recorder := RecordLoggedCall row; caught := c |})
  = loggedCalls s ++ [row].
Proof. intros H. unfold_recorders. simpl. by rewrite H. Qed.

Lemma settle_usage_logged e s a c :
  writeFault e = None ->
  exists row,
    loggedCalls (settle e s {| recorder := RecordUsage a; caught := c |})
    = loggedCalls s ++ [row]
    /\ lc_statusCode row = Some 200
    /\ lc_errorMessage row = None.
Proof.
  intros H. unfold_recorders. simpl. rewrite H. simpl. eauto.
Qed.

(** Unless the lookup of a custom model is rejected by the storage, a
    valid request that fails does so with a translated error, whose extra
    status is the status of its code. *)
Lemma createChatCompletion_translated e ctx input p f failure :
  parseInput e input = inr p ->
  (isFineTune p = true -> readFault e = None) ->
  createChatCompletion e ctx input enter = (f, inl failure) ->
  exists code msg,
    failure = ExtendedTRPCError code msg (statusCodeFromTrpcCode e code) msg.
Proof.
  intros Hp Hread H. unfold_handler. rewrite Hp in H.
  cases; eauto; by specialize (Hread eq_refl).
Qed.

(** C1, the flaw: a valid request for a custom model whose lookup the
    storage rejects fails with the error of the storage, and no Logged
    Call is written for it, although the log store accepts writes. *)
Lemma lookup_fault_call_unlogged :
  let e := withReadFault (Some "Can't reach database server")
             Scenario.healthy in
  let input := Scenario.request "openpipe:support-bot" false in
  let served := serve e (Scenario.caller false ∅) input Scenario.blank in
  (exists p, parseInput e input = inr p)
  /\ writeFault e = None
  /\ answer served = inl (Error "Can't reach database server")
  /\ length (loggedCalls (after served)) <> 1%nat.
Proof.
  split; [by eexists|]. split; [done|]. split; [by vm_compute|].
  by vm_compute.
Qed.

(** C1, as amended: for a valid request, a lookup of the custom model
    that the storage answers and a log store that accepts the write,
    exactly one Logged Call is written: with status code 200 and no error
    message when the request is served, and with the status and the
    message of the translated error when it fails, whether the tags were
    rejected, the custom model is unknown or foreign, or the provider
    failed. *)
Theorem logged_exactly_once e ctx input s p :
  parseInput e input = inr p ->
  (isFineTune p = true -> readFault e = None) ->
  writeFault e = None ->
  exists row,
    loggedCalls (after (serve e ctx input s)) = loggedCalls s ++ [row]
    /\ match answer (serve e ctx input s) with
       | inr _ => lc_statusCode row = Some 200 /\ lc_errorMessage row = None
       | inl failure =>
           exists code msg,
             failure
             = ExtendedTRPCError code msg (statusCodeFromTrpcCode e code) msg
             /\ lc_statusCode row = Some (statusCodeFromTrpcCode e code)
             /\ lc_errorMessage row = Some msg
       end.
Proof.
  intros Hp Hread Hw. rewrite serve_unfold. unfold answer, after. simpl.
  destruct (createChatCompletion e ctx input enter) as [f [failure|resp]]
    eqn:E; simpl.
  - destruct (createChatCompletion_translated _ _ _ _ _ _ Hp Hread E)
      as (code & msg & ->).
    destruct (createChatCompletion_failed _ _ _ _ _ _ Hp E)
      as (row & -> & Hst & _ & Hmsg & _).
    simpl. exists row. rewrite settle_logged_call by done.
    split; [done|]. by exists code, msg.
  - destruct (createChatCompletion_served _ _ _ _ _ E)
      as (p' & a & _ & -> & _).
    simpl. destruct (settle_usage_logged e s a true Hw) as (row & -> & H).
    by exists row.
Qed.

Lemma logged_exactly_once_witness :
  let input := Scenario.request "gpt-4" false in
  let served := serve Scenario.healthy (Scenario.caller false ∅) input
                  Scenario.blank in
  let p := {| model := "gpt-4"; payload := in_object input |} in
  parseInput Scenario.healthy input = inr p
  /\ (isFineTune p = true -> readFault Scenario.healthy = None)
  /\ writeFault Scenario.healthy = None
  /\ exists row,
       loggedCalls (after served) = [] ++ [row]
       /\ match answer served with
          | inr _ =>
              lc_statusCode row = Some 200 /\ lc_errorMessage row = None
          | inl failure =>
              exists code msg,
                failure
                = ExtendedTRPCError code msg
                    (statusCodeFromTrpcCode Scenario.healthy code) msg
                /\ lc_statusCode row
                   = Some (statusCodeFromTrpcCode Scenario.healthy code)
                /\ lc_errorMessage row = Some msg
          end.
Proof.
  intros input served p.
  assert (Hread : isFineTune p = true -> readFault Scenario.healthy = None)
    by reflexivity.
  split; [reflexivity|]. split; [exact Hread|]. split; [reflexivity|].
  exact (logged_exactly_once Scenario.healthy (Scenario.caller false ∅)
           input Scenario.blank p eq_refl Hread eq_refl).
Defined.

(** Whatever the log store does, a request adds at most one Logged Call. *)
Lemma settle_at_most_one e s t :
  exists rows,
    loggedCalls (settle e s t) = loggedCalls s ++ rows
    /\ (length rows <= 1)%nat.
Proof.
  destruct t as [[a|row] c]; unfold_recorders; simpl;
    destruct (writeFault e);
    destruct c; simpl;
    first [ by exists []; rewrite app_nil_r; split; [done|simpl; lia]
          | by eexists [_]; split; [done|simpl; lia] ].
Qed.

(** X11: Whatever the collaborators and the log store do, a valid request adds
    at most one Logged Call to the log. *)
Lemma at_most_one_logged_call e ctx input s p :
  parseInput e input = inr p ->
  exists rows,
    loggedCalls (after (serve e ctx input s)) = loggedCalls s ++ rows
    /\ (length rows <= 1)%nat.
Proof.
  intros Hp. rewrite serve_unfold. unfold after. simpl.
  destruct (createChatCompletion e ctx input enter) as [f [failure|resp]]
    eqn:E; simpl.
  - pose proof (createChatCompletion_failed _ _ _ _ _ _ Hp E) as H.
    destruct failure;
      try (rewrite H; exists []; rewrite app_nil_r; split; [done|simpl; lia]).
    destruct H as (row & -> & _). apply settle_at_most_one.
  - destruct (createChatCompletion_served _ _ _ _ _ E)
      as (p' & a & _ & -> & _). apply settle_at_most_one.
Qed.

(** The slug of a custom model is what follows the namespace prefix. *)
Lemma prefix_append pattern s : String.prefix pattern (pattern +:+ s) = true.
Proof.
  induction pattern as [|c pattern IH]; simpl; [by destruct s|].
  destruct (Ascii.ascii_dec c c); [done|congruence].
Qed.

Lemma substring_whole s : String.substring 0 (String.length s) s = s.
Proof. induction s as [|c s IH]; simpl; [done|]. by rewrite IH. Qed.

Lemma substring_append pattern s :
  String.substring (String.length pattern)
    (String.length (pattern +:+ s) - String.length pattern)%nat
    (pattern +:+ s) = s.
Proof.
  induction pattern as [|c pattern IH]; simpl; [|done].
  rewrite Nat.sub_0_r. apply substring_whole.
Qed.

Lemma removeFirst_prefix pattern s : removeFirst pattern (pattern +:+ s) = s.
Proof.
  pose proof (prefix_append pattern s) as Hpre.
  pose proof (substring_append pattern s) as Hsub.
  destruct (pattern +:+ s) as [|d rest] eqn:E; simpl in *;
    by rewrite Hpre.
Qed.

(** C2, the flaw: a request for a custom model that does not exist, sent
    with an [op-tags] header that does not parse, fails with BAD_REQUEST,
    not with NOT_FOUND: the tags are read before the model is resolved. *)
Lemma unknown_model_with_bad_tags_is_bad_request :
  let input := Scenario.request "openpipe:my-model" false in
  let ctx := Scenario.caller false {[ "op-tags" := "{" ]} in
  let m := "Failed to parse tags: Unexpected end of JSON input" in
  (exists p, parseInput Scenario.healthy input = inr p
             /\ String.prefix "openpipe:" (model p) = true
             /\ findUnique Scenario.healthy
                  (removeFirst "openpipe:" (model p)) = inr None)
  /\ answer (serve Scenario.healthy ctx input Scenario.blank)
     = inl (ExtendedTRPCError BAD_REQUEST m 400 m).
Proof.
  split; [|by vm_compute].
  eexists. split; [reflexivity|]. split; by vm_compute.
Qed.

(** C2, as amended: for a request whose model carries the custom-model
    prefix and whose [op-tags] header is absent or parses, the call fails
    with NOT_FOUND when the slug resolves to no record, and with FORBIDDEN
    when the resolved record belongs to another project than the caller's;
    in both cases no provider endpoint has been called. *)
Theorem custom_model_rejected_before_dispatch e ctx input s p found :
  parseInput e input = inr p ->
  isFineTune p = true ->
  (headerTags e ctx enter).2 = inr tt ->
  findUnique e (removeFirst "openpipe:" (model p)) = inr found ->
  (forall ft, found = Some ft -> ft_projectId ft <> projectId (key ctx)) ->
  answer (serve e ctx input s)
  = inl (match found with
         | None =>
             let m := "The model `" +:+ model p +:+ "` does not exist" in
             ExtendedTRPCError NOT_FOUND m
               (statusCodeFromTrpcCode e NOT_FOUND) m
         | Some _ =>
             let m := "The model does not belong to this project" in
             ExtendedTRPCError FORBIDDEN m
               (statusCodeFromTrpcCode e FORBIDDEN) m
         end)
  /\ Forall (fun ef => isProviderCall ef = false)
       (calls (serve e ctx input s)).
Proof.
  intros Hp Hft Htags Hfound Hother.
  rewrite serve_unfold. unfold answer, calls. simpl.
  assert (Hne : forall ft, found = Some ft ->
            String.eqb (ft_projectId ft) (projectId (key ctx)) = false).
  { intros ft Hsome. apply String.eqb_neq. by apply Hother. }
  clear Hother.
  unfold_handler. rewrite Hp. simpl.
  cases; try done; try (split; [done|repeat constructor]);
    try (by rewrite (Hne _ eq_refl) in *).
Qed.

Lemma custom_model_rejected_before_dispatch_witness :
  let input := Scenario.request "openpipe:my-model" false in
  let other := {| key := {| projectId := "project-2"; readOnly := false |};
                  headers := ∅ |} in
  let gone := "The model `openpipe:my-model` does not exist" in
  let foreign := "The model does not belong to this project" in
  (answer (serve Scenario.healthy (Scenario.caller false ∅) input
             Scenario.blank)
   = inl (ExtendedTRPCError NOT_FOUND gone 404 gone)
   /\ Forall (fun ef => isProviderCall ef = false)
        (calls (serve Scenario.healthy (Scenario.caller false ∅) input
                  Scenario.blank)))
  /\ (answer (serve Scenario.healthy other
                (Scenario.request "openpipe:support-bot" false) Scenario.blank)
      = inl (ExtendedTRPCError FORBIDDEN foreign 403 foreign)
      /\ Forall (fun ef => isProviderCall ef = false)
           (calls (serve Scenario.healthy other
                     (Scenario.request "openpipe:support-bot" false)
                     Scenario.blank))).
Proof.
  intros input other gone foreign. split.
  - refine (custom_model_rejected_before_dispatch Scenario.healthy
              (Scenario.caller false ∅) input Scenario.blank _ None
              eq_refl eq_refl eq_refl _ _).
    + by vm_compute.
    + intros ft Hft. discriminate Hft.
  - refine (custom_model_rejected_before_dispatch Scenario.healthy other
              (Scenario.request "openpipe:support-bot" false) Scenario.blank _
              (Some Scenario.supportBot) eq_refl eq_refl eq_refl _ _).
    + by vm_compute.
    + intros ft Hft. injection Hft as <-. by vm_compute.
Defined.

(** C6, the flaw: a connection error of the provider's client carries no
    provider status code, but it is an [APIError]: it is passed through
    with its own message and the code of a missing status, and is not
    wrapped as BAD_REQUEST. *)
Lemma connection_error_not_bad_request :
  let e := Scenario.deployment (inl (APIError None "Connection error."))
             None in
  let ctx := Scenario.caller false ∅ in
  let input := Scenario.request "gpt-4" false in
  let p := {| model := "gpt-4"; payload := in_object input |} in
  In (GetOpenaiCompletion "project-1" p false)
     (calls (serve e ctx input Scenario.blank))
  /\ getOpenaiCompletion e "project-1" p false
     = inl (APIError None "Connection error.")
  /\ answer (serve e ctx input Scenario.blank)
     = inl (ExtendedTRPCError INTERNAL_SERVER_ERROR "Connection error." 500
              "Connection error.")
  /\ (forall m status,
        answer (serve e ctx input Scenario.blank)
        <> inl (ExtendedTRPCError BAD_REQUEST m status m)).
Proof.
  split; [vm_compute; by left|]. split; [done|]. split; [by vm_compute|].
  intros m status H. vm_compute in H. discriminate H.
Qed.

(** C6, as amended: when a request has been dispatched to the upstream
    provider and the provider call fails, a failure that is an [APIError]
    reaches the caller with its own message and with the code that
    [trpcCodeFromHttpStatus] derives from its status, also when it has no
    status; a failure that is not an [APIError] reaches the caller as
    BAD_REQUEST, under a message that wraps its own. *)
Theorem upstream_failure_translated e ctx input s project p stream failure :
  In (GetOpenaiCompletion project p stream) (calls (serve e ctx input s)) ->
  getOpenaiCompletion e project p stream = inl failure ->
  answer (serve e ctx input s)
  = inl (match failure with
         | APIError status msg =>
             let code := trpcCodeFromHttpStatus e status in
             ExtendedTRPCError code msg (statusCodeFromTrpcCode e code) msg
         | _ =>
             let m := "Failed to get OpenAI completion: "
                        +:+ message failure in
             ExtendedTRPCError BAD_REQUEST m
               (statusCodeFromTrpcCode e BAD_REQUEST) m
         end).
Proof.
  intros Hcall Hfail.
  rewrite serve_unfold in *. unfold answer, calls in *. simpl in *.
  unfold_handler.
  cases; simpl in *; intuition; simplify_eq; try done; congruence.
Qed.

Lemma upstream_failure_translated_witness :
  let e := Scenario.deployment
             (inl (APIError (Some 429) "Rate limit reached")) None in
  let ctx := Scenario.caller false ∅ in
  let input := Scenario.request "gpt-4" false in
  let p := {| model := "gpt-4"; payload := in_object input |} in
  In (GetOpenaiCompletion "project-1" p false)
     (calls (serve e ctx input Scenario.blank))
  /\ getOpenaiCompletion e "project-1" p false
     = inl (APIError (Some 429) "Rate limit reached")
  /\ answer (serve e ctx input Scenario.blank)
     = inl (ExtendedTRPCError TOO_MANY_REQUESTS "Rate limit reached" 429
              "Rate limit reached").
Proof.
  intros e ctx input p.
  assert (Hcall : In (GetOpenaiCompletion "project-1" p false)
                     (calls (serve e ctx input Scenario.blank)))
    by (vm_compute; left; reflexivity).
  split; [exact Hcall|]. split; [reflexivity|].
  exact (upstream_failure_translated e ctx input Scenario.blank "project-1"
           p false (APIError (Some 429) "Rate limit reached") Hcall eq_refl).
Defined.

(** C7, the flaw: the Logged Call written for a custom model that does
    not exist carries the error's code and message as its response
    payload; the payload is not null. *)
Lemma unknown_model_log_has_response_payload :
  let input := Scenario.request "openpipe:my-model" false in
  let served := serve Scenario.healthy (Scenario.caller false ∅) input
                  Scenario.blank in
  let m := "The model `openpipe:my-model` does not exist" in
  Scenario.healthy.(fineTunes) !! "my-model" = None
  /\ answer served = inl (ExtendedTRPCError NOT_FOUND m 404 m)
  /\ exists row,
       loggedCalls (after served) = [row]
       /\ lc_statusCode row = Some 404
       /\ lc_respPayload row
          = Some (JObj [("code", JStr "NOT_FOUND"); ("message", JStr m)])
       /\ lc_respPayload row <> None
       /\ lc_respPayload row <> Some JNull.
Proof.
  split; [by vm_compute|]. split; [by vm_compute|].
  eexists. split; [by vm_compute|]. by repeat split.
Qed.

(** C7, as amended: for a request naming a custom model whose slug does
    not exist, with an [op-tags] header that is absent or parses and a log
    store that accepts the write, the caller receives NOT_FOUND and one
    failed Logged Call is written, with the status code of NOT_FOUND (404),
    the error message, no usage, and a response payload that holds the
    error's code and message. *)
Theorem unknown_custom_model_logged e ctx input s p :
  parseInput e input = inr p ->
  isFineTune p = true ->
  (headerTags e ctx enter).2 = inr tt ->
  findUnique e (removeFirst "openpipe:" (model p)) = inr None ->
  writeFault e = None ->
  statusCodeFromTrpcCode e NOT_FOUND = 404 ->
  let m := "The model `" +:+ model p +:+ "` does not exist" in
  answer (serve e ctx input s) = inl (ExtendedTRPCError NOT_FOUND m 404 m)
  /\ exists row,
       loggedCalls (after (serve e ctx input s)) = loggedCalls s ++ [row]
       /\ lc_projectId row = projectId (key ctx)
       /\ lc_reqPayload row = payload p
       /\ lc_statusCode row = Some 404
       /\ lc_errorMessage row = Some m
       /\ lc_usage row = None
       /\ lc_respPayload row
          = Some (JObj [("code", JStr "NOT_FOUND"); ("message", JStr m)]).
Proof.
  intros Hp Hft Htags Hfound Hw H404 m.
  rewrite serve_unfold. unfold answer, after. simpl.
  unfold_handler. rewrite Hp. simpl.
  cases; try done; rewrite H404;
    (split; [done|]); eexists; rewrite settle_logged_call by done;
    (split; [done|]); by repeat split.
Qed.

Lemma unknown_custom_model_logged_witness :
  let input := Scenario.request "openpipe:my-model" false in
  let ctx := Scenario.caller false ∅ in
  let p := {| model := "openpipe:my-model"; payload := in_object input |} in
  let m := "The model `openpipe:my-model` does not exist" in
  parseInput Scenario.healthy input = inr p
  /\ isFineTune p = true
  /\ (headerTags Scenario.healthy ctx enter).2 = inr tt
  /\ findUnique Scenario.healthy (removeFirst "openpipe:" (model p))
     = inr None
  /\ writeFault Scenario.healthy = None
  /\ statusCodeFromTrpcCode Scenario.healthy NOT_FOUND = 404
  /\ answer (serve Scenario.healthy ctx input Scenario.blank)
     = inl (ExtendedTRPCError NOT_FOUND m 404 m)
  /\ exists row,
       loggedCalls (after (serve Scenario.healthy ctx input Scenario.blank))
       = [] ++ [row]
       /\ lc_projectId row = "project-1"
       /\ lc_reqPayload row = in_object input
       /\ lc_statusCode row = Some 404
       /\ lc_errorMessage row = Some m
       /\ lc_usage row = None
       /\ lc_respPayload row
          = Some (JObj [("code", JStr "NOT_FOUND"); ("message", JStr m)]).
Proof.
  intros input ctx p m.
  assert (Hfound : findUnique Scenario.healthy
                     (removeFirst "openpipe:" (model p)) = inr None)
    by (vm_compute; reflexivity).
  split; [reflexivity|]. split; [reflexivity|]. split; [reflexivity|].
  split; [exact Hfound|]. split; [reflexivity|]. split; [reflexivity|].
  exact (unknown_custom_model_logged Scenario.healthy ctx input
           Scenario.blank p eq_refl eq_refl eq_refl Hfound eq_refl eq_refl).
Defined.

(** ** Failures of the recording path *)

(** The handler does not wait for the recorders: what it answers, and
    what it launches, does not depend on the state of the log store. *)
Lemma createChatCompletion_ignores_write_fault fault e ctx input f :
  createChatCompletion (withWriteFault fault e) ctx input f
  = createChatCompletion e ctx input f.
Proof. reflexivity. Qed.

Lemma answer_ignores_recording fault e ctx input s s' :
  answer (serve (withWriteFault fault e) ctx input s)
  = answer (serve e ctx input s').
Proof.
  rewrite !serve_unfold. unfold answer. simpl.
  by rewrite createChatCompletion_ignores_write_fault.
Qed.

(** X10: On the served path a failed write is caught and handed to
    [captureException]. *)
Lemma served_write_failure_captured e ctx input s resp p m :
  answer (serve e ctx input s) = inr resp ->
  parseInput e input = inr p ->
  logRequest ctx p = true ->
  writeFault e = Some m ->
  sentry (after (serve e ctx input s)) = sentry s ++ [m]
  /\ unhandled (after (serve e ctx input s)) = unhandled s
  /\ loggedCalls (after (serve e ctx input s)) = loggedCalls s.
Proof.
  rewrite serve_unfold. unfold answer, after. simpl. intros H Hp Hon Hw.
  destruct (createChatCompletion e ctx input enter) as [f r] eqn:E.
  simpl in *. subst r.
  destruct (createChatCompletion_served _ _ _ _ _ E)
    as (p' & a & Hp' & -> & Hl & _).
  assert (p' = p) as -> by congruence. simpl.
  unfold_recorders. simpl. rewrite Hw. by simpl.
Qed.

(** On the failed path the write is launched with nothing chained on it:
    when it fails, the rejection is left unhandled and [captureException]
    is not called. *)
Lemma failed_write_failure_unhandled e ctx input s p code msg st xm m :
  answer (serve e ctx input s) = inl (ExtendedTRPCError code msg st xm) ->
  parseInput e input = inr p ->
  writeFault e = Some m ->
  sentry (after (serve e ctx input s)) = sentry s
  /\ unhandled (after (serve e ctx input s)) = unhandled s ++ [m]
  /\ loggedCalls (after (serve e ctx input s)) = loggedCalls s.
Proof.
  rewrite serve_unfold. unfold answer, after. simpl. intros H Hp Hw.
  destruct (createChatCompletion e ctx input enter) as [f r] eqn:E.
  simpl in *. subst r.
  destruct (createChatCompletion_failed _ _ _ _ _ _ Hp E)
    as (row & -> & _).
  simpl. unfold_recorders. simpl. rewrite Hw. by simpl.
Qed.

(** C4, at the failing input: a request for a custom model that does not
    exist, while the log store rejects writes.  The caller still receives
    NOT_FOUND, but the failure of [recordLoggedCall] is not reported to the
    observability sink: it is left as an unhandled rejection. *)
Theorem failed_call_write_failure_unreported :
  let e := Scenario.deployment (inr (Single Scenario.hello))
             (Some "Can't reach database server") in
  let input := Scenario.request "openpipe:my-model" false in
  let served := serve e (Scenario.caller false ∅) input Scenario.blank in
  let m := "The model `openpipe:my-model` does not exist" in
  answer served = inl (ExtendedTRPCError NOT_FOUND m 404 m)
  /\ detached (calls served)
     = [{| recorder :=
             RecordLoggedCall
               {| lc_projectId := "project-1";
                  lc_usage := None;
                  lc_requestedAt := 1700000000000;
                  lc_receivedAt := Some 1700000000001;
                  lc_reqPayload := in_object input;
                  lc_respPayload :=
                    Some (JObj [("code", JStr "NOT_FOUND");
                                ("message", JStr m)]);
                  lc_statusCode := Some 404;
                  lc_errorMessage := Some m;
                  lc_tags := ∅ |};
           caught := false |}]
  /\ sentry (after served) = []
  /\ unhandled (after served) = ["Can't reach database server"]
  /\ loggedCalls (after served) = [].
Proof. by vm_compute. Qed.

(** ** report *)

Ltac unfold_report :=
  unfold report, recordLoggedCall, append, findUnique, spa, bind, try_catch,
    lift, ret, throw in *.

(** C3: [report] called with a read-only credential fails with FORBIDDEN
    and leaves the store as it was: no Logged Call row is written. *)
Theorem report_read_only_forbidden e ctx input s :
  readOnly (key ctx) = true ->
  report e ctx input s
  = (s, inl (TRPCError FORBIDDEN
               "Read-only API keys cannot report API calls")).
Proof. intros H. unfold report. by rewrite H. Qed.

Lemma report_read_only_forbidden_witness :
  readOnly (key (Scenario.caller true ∅)) = true
  /\ report Scenario.healthy (Scenario.caller true ∅)
       (Scenario.reported (JObj [("model", JStr "gpt-4")])
          (Some Scenario.hello))
       Scenario.blank
     = (Scenario.blank,
        inl (TRPCError FORBIDDEN
               "Read-only API keys cannot report API calls")).
Proof.
  split; [reflexivity|].
  apply (report_read_only_forbidden Scenario.healthy
           (Scenario.caller true ∅)). reflexivity.
Defined.

(** C8: whatever [report] writes to the log carries the usage that the
    server computes with [calculateUsage] from the request and response
    payloads that were supplied (the input has no usage field to take it
    from); with a response payload that is absent or does not validate the
    usage is left unset, and this is not an error: the report is accepted
    whenever the key may write, the tags parse and the log store accepts
    the write. *)
Theorem report_usage_recomputed e ctx input s :
  exists rows,
    loggedCalls (report e ctx input s).1 = loggedCalls s ++ rows
    /\ Forall
         (fun row =>
            lc_usage row
            = match reqValidator e (rp_reqPayload input),
                    spa (chatCompletionOutput e) (rp_respPayload input) with
              | Some reqData, Some respData =>
                  calculateUsage e reqData (Some respData)
                    (fineTunes e !! removeFirst "openpipe:" (model reqData))
              | _, _ => None
              end) rows
    /\ (spa (chatCompletionOutput e) (rp_respPayload input) = None ->
        Forall (fun row => lc_usage row = None) rows)
    /\ (readOnly (key ctx) = false ->
        (exists tags, parseTags e (rp_tags input) = inr tags) ->
        writeFault e = None ->
        spa (chatCompletionOutput e) (rp_respPayload input) = None
        \/ readFault e = None ->
        (report e ctx input s).2 = inr StatusOk /\ length rows = 1%nat).
Proof.
  unfold_report. simpl.
  destruct (readOnly (key ctx)); simpl.
  { exists []. rewrite app_nil_r. repeat split; try done; constructor. }
  destruct (reqValidator e (rp_reqPayload input)) as [reqData|],
    (rp_respPayload input ≫= chatCompletionOutput e) as [respData|];
    simpl; try destruct (readFault e); simpl;
    destruct (parseTags e (rp_tags input)) as [failure|tags]; simpl;
    try destruct (writeFault e); simpl;
    first
      [ solve [ exists []; rewrite app_nil_r;
                split; [done|]; split; [constructor|];
                split; [intros ?; constructor|];
                intros ? [? ?] ? [?|?]; simplify_eq ]
      | solve [ eexists [_];
                split; [done|]; split; [by repeat constructor|];
                split; [intros ?; by repeat constructor|]; by intros ] ].
Qed.

Lemma report_usage_recomputed_witness :
  let input := Scenario.reported (JObj [("model", JStr "gpt-4")]) None in
  let ctx := Scenario.caller false ∅ in
  spa (chatCompletionOutput Scenario.healthy) (rp_respPayload input) = None
  /\ readOnly (key ctx) = false
  /\ (exists tags, parseTags Scenario.healthy (rp_tags input) = inr tags)
  /\ writeFault Scenario.healthy = None
  /\ exists rows,
       loggedCalls (report Scenario.healthy ctx input Scenario.blank).1
       = [] ++ rows
       /\ Forall (fun row => lc_usage row = None) rows
       /\ (report Scenario.healthy ctx input Scenario.blank).2
          = inr StatusOk
       /\ length rows = 1%nat.
Proof.
  intros input ctx.
  assert (Hresp : spa (chatCompletionOutput Scenario.healthy)
                    (rp_respPayload input) = None) by reflexivity.
  assert (Htags : exists tags,
             parseTags Scenario.healthy (rp_tags input) = inr tags)
    by (by eexists).
  split; [exact Hresp|]. split; [reflexivity|]. split; [exact Htags|].
  split; [reflexivity|].
  destruct (report_usage_recomputed Scenario.healthy ctx input Scenario.blank)
    as (rows & Hrows & _ & Hunset & Hok).
  destruct (Hok eq_refl Htags eq_refl (or_introl Hresp)) as (Hstatus & Hone).
  exists rows. split; [exact Hrows|]. split; [exact (Hunset Hresp)|].
  by split.
Defined.

(** C10, the flaw: a report whose request payload does not validate,
    made by a key that may write, while the log store rejects the write:
    the call fails with BAD_REQUEST and no Logged Call is written. *)
Lemma invalid_report_fails_with_store :
  let e := Scenario.deployment (inr (Single Scenario.hello))
             (Some "Can't reach database server") in
  let input := Scenario.reported (JNum 3) (Some Scenario.hello) in
  readOnly (key (Scenario.caller false ∅)) = false
  /\ reqValidator e (rp_reqPayload input) = None
  /\ report e (Scenario.caller false ∅) input Scenario.blank
     = (Scenario.blank,
        inl (TRPCError BAD_REQUEST
               "Failed to create logged call: Can't reach database server")).
Proof. by vm_compute. Qed.

(** C10, as amended: a report made by a key that is not read-only, whose
    request or response payload fails schema validation, whose tags parse
    and whose write the log store accepts, writes one Logged Call, with
    usage unset and the payloads as they were supplied, and returns the
    status ok. *)
Theorem invalid_report_still_logged e ctx input s tags :
  readOnly (key ctx) = false ->
  reqValidator e (rp_reqPayload input) = None
  \/ spa (chatCompletionOutput e) (rp_respPayload input) = None ->
  parseTags e (rp_tags input) = inr tags ->
  writeFault e = None ->
  report e ctx input s
  = ({| loggedCalls :=
          loggedCalls s
          ++ [{| lc_projectId := projectId (key ctx);
                 lc_usage := None;
                 lc_requestedAt := requestedAtOrNow e input;
                 lc_receivedAt := rp_receivedAt input;
                 lc_reqPayload := rp_reqPayload input;
                 lc_respPayload := rp_respPayload input;
                 lc_statusCode := rp_statusCode input;
                 lc_errorMessage := rp_errorMessage input;
                 lc_tags := tags |}];
        sentry := sentry s;
        unhandled := unhandled s |},
     inr StatusOk).
Proof.
  intros Hrw Hinvalid Htags Hw. unfold_report. simpl.
  rewrite Hrw, Htags, Hw.
  destruct Hinvalid as [H|H]; rewrite H; [done|].
  by destruct (reqValidator e (rp_reqPayload input)).
Qed.

Lemma invalid_report_still_logged_witness :
  let input := Scenario.reported (JNum 3) None in
  let ctx := Scenario.caller false ∅ in
  readOnly (key ctx) = false
  /\ (reqValidator Scenario.healthy (rp_reqPayload input) = None
      \/ spa (chatCompletionOutput Scenario.healthy) (rp_respPayload input)
         = None)
  /\ parseTags Scenario.healthy (rp_tags input) = inr ∅
  /\ writeFault Scenario.healthy = None
  /\ report Scenario.healthy ctx input Scenario.blank
     = ({| loggedCalls :=
             [] ++ [{| lc_projectId := "project-1";
                       lc_usage := None;
                       lc_requestedAt :=
                         requestedAtOrNow Scenario.healthy input;
                       lc_receivedAt := None;
                       lc_reqPayload := JNum 3;
                       lc_respPayload := None;
                       lc_statusCode := Some 200;
                       lc_errorMessage := None;
                       lc_tags := ∅ |}];
           sentry := [];
           unhandled := [] |},
        inr StatusOk).
Proof.
  intros input ctx.
  assert (Hbad : reqValidator Scenario.healthy (rp_reqPayload input) = None
                 \/ spa (chatCompletionOutput Scenario.healthy)
                      (rp_respPayload input) = None)
    by (left; reflexivity).
  split; [reflexivity|]. split; [exact Hbad|]. split; [reflexivity|].
  split; [reflexivity|].
  exact (invalid_report_still_logged Scenario.healthy ctx input
           Scenario.blank ∅ eq_refl Hbad eq_refl eq_refl).
Defined.

(** ** Scenarios *)

Example removeFirst_slug :
  removeFirst "openpipe:" "openpipe:my-model" = "my-model".
Proof. reflexivity. Qed.

Example removeFirst_inner :
  removeFirst "openpipe:" "ft:openpipe:my-model" = "ft:my-model".
Proof. reflexivity. Qed.

Example removeFirst_absent : removeFirst "openpipe:" "gpt-4" = "gpt-4".
Proof. reflexivity. Qed.

(** A plain request to a healthy upstream returns the completion and is
    logged once, with status code 200 and its usage. *)
Example upstream_call_served_and_logged :
  let served := serve Scenario.healthy (Scenario.caller false ∅)
                  (Scenario.request "gpt-4" false) Scenario.blank in
  answer served = inr (Completed Scenario.hello)
  /\ map lc_statusCode (loggedCalls (after served)) = [Some 200]
  /\ map lc_usage (loggedCalls (after served))
     = [Some {| inputTokens := 8; outputTokens := 2; cost := 10 |}].
Proof. by vm_compute. Qed.

(** A streamed request answers with the output branch of the split, and
    the accounting side logs what it has read from the other branch. *)
Example streamed_call_served_and_logged :
  let served := serve Scenario.streaming (Scenario.caller false ∅)
                  (Scenario.request "gpt-4" true) Scenario.blank in
  let chunks := [Scenario.chunk 0; Scenario.chunk 1; Scenario.chunk 2] in
  answer served = inr (Readable (tee chunks) RightBranch)
  /\ map lc_respPayload (loggedCalls (after served))
     = [Scenario.merged chunks].
Proof. by vm_compute. Qed.

(** Reporting the same call twice writes two rows. *)
Example report_twice_two_rows :
  let input := Scenario.reported (JObj [("model", JStr "gpt-4")])
                 (Some Scenario.hello) in
  let ctx := Scenario.caller false ∅ in
  let once := (report Scenario.healthy ctx input Scenario.blank).1 in
  let twice := (report Scenario.healthy ctx input once).1 in
  length (loggedCalls once) = 1%nat /\ length (loggedCalls twice) = 2%nat.
Proof. by vm_compute. Qed.

(** * Further properties of the router *)

(** ** Routing *)

(** X1: A request is routed by its namespace alone: a custom-model request
    never reaches the upstream provider, any other request never reads the
    custom-model table nor calls a custom model, and at most one provider call
    is made. *)
Theorem routed_by_namespace e ctx input s p :
  parseInput e input = inr p ->
  (if isFineTune p
   then Forall (fun ef => match ef with
                          | GetOpenaiCompletion _ _ _ => False
                          | _ => True
                          end) (calls (serve e ctx input s))
   else Forall (fun ef => match ef with
                          | FindUnique _ | GetCompletion2 _ _ => False
                          | _ => True
                          end) (calls (serve e ctx input s)))
  /\ (length (filter (fun ef => isProviderCall ef = true)
                (calls (serve e ctx input s))) <= 1)%nat.
Proof.
  intros Hp. rewrite serve_unfold. unfold calls. simpl.
  unfold_handler. rewrite Hp. simpl.
  cases; split; try (repeat constructor; done); simpl; lia.
Qed.

Lemma routed_by_namespace_witness :
  let input := Scenario.request "gpt-4" false in
  let served := serve Scenario.healthy (Scenario.caller false ∅) input
                  Scenario.blank in
  let p := {| model := "gpt-4"; payload := in_object input |} in
  parseInput Scenario.healthy input = inr p
  /\ (if isFineTune p
      then Forall (fun ef => match ef with
                             | GetOpenaiCompletion _ _ _ => False
                             | _ => True
                             end) (calls served)
      else Forall (fun ef => match ef with
                             | FindUnique _ | GetCompletion2 _ _ => False
                             | _ => True
                             end) (calls served))
  /\ (length (filter (fun ef => isProviderCall ef = true) (calls served))
      <= 1)%nat.
Proof.
  intros input served p. split; [reflexivity|].
  exact (routed_by_namespace Scenario.healthy (Scenario.caller false ∅)
           input Scenario.blank p eq_refl).
Defined.

(** X2: A custom model only ever serves a caller of its own project: when the
    custom-model endpoint has been called, the model is the one stored under
    the slug of the request, and it belongs to the project of the caller's
    key. *)
Theorem custom_model_call_is_owned e ctx input s ft p :
  In (GetCompletion2 ft p) (calls (serve e ctx input s)) ->
  parseInput e input = inr p
  /\ isFineTune p = true
  /\ fineTunes e !! removeFirst "openpipe:" (model p) = Some ft
  /\ ft_projectId ft = projectId (key ctx).
Proof.
  rewrite serve_unfold. unfold calls. simpl. intros Hcall.
  unfold_handler.
  cases; simpl in *; intuition; simplify_eq;
    repeat split; try done;
    match goal with
    | H : negb (String.eqb _ _) = false |- _ =>
        apply negb_false_iff, String.eqb_eq in H; exact H
    end.
Qed.

Lemma custom_model_call_is_owned_witness :
  let input := Scenario.request "openpipe:support-bot" false in
  let served := serve Scenario.healthy (Scenario.caller false ∅) input
                  Scenario.blank in
  let p := {| model := "openpipe:support-bot"; payload := in_object input |} in
  In (GetCompletion2 Scenario.supportBot p) (calls served)
  /\ parseInput Scenario.healthy input = inr p
  /\ isFineTune p = true
  /\ fineTunes Scenario.healthy !! removeFirst "openpipe:" (model p)
     = Some Scenario.supportBot
  /\ ft_projectId Scenario.supportBot = "project-1".
Proof.
  intros input served p.
  assert (Hcall : In (GetCompletion2 Scenario.supportBot p) (calls served))
    by (vm_compute; right; left; reflexivity).
  split; [exact Hcall|].
  exact (custom_model_call_is_owned Scenario.healthy
           (Scenario.caller false ∅) input Scenario.blank
           Scenario.supportBot p Hcall).
Defined.

(** X3: The table is queried with the slug that follows the namespace prefix
    of the requested model, and with nothing else. *)
Theorem custom_model_lookup_by_slug e ctx input s p slug looked :
  parseInput e input = inr p ->
  model p = "openpipe:" +:+ slug ->
  In (FindUnique looked) (calls (serve e ctx input s)) ->
  looked = slug.
Proof.
  intros Hp Hm. rewrite serve_unfold. unfold calls. simpl.
  pose proof (removeFirst_prefix "openpipe:" slug) as Hslug.
  rewrite <- Hm in Hslug.
  unfold_handler. rewrite Hp. simpl.
  cases; simpl in *; intuition; simplify_eq; congruence.
Qed.

Lemma custom_model_lookup_by_slug_witness :
  let input := Scenario.request "openpipe:support-bot" false in
  let served := serve Scenario.healthy (Scenario.caller false ∅) input
                  Scenario.blank in
  let p := {| model := "openpipe:support-bot"; payload := in_object input |} in
  parseInput Scenario.healthy input = inr p
  /\ model p = "openpipe:" +:+ "support-bot"
  /\ In (FindUnique "support-bot") (calls served)
  /\ "support-bot" = "support-bot".
Proof.
  intros input served p.
  assert (Hcall : In (FindUnique "support-bot") (calls served))
    by (vm_compute; left; reflexivity).
  split; [reflexivity|]. split; [reflexivity|]. split; [exact Hcall|].
  exact (custom_model_lookup_by_slug Scenario.healthy
           (Scenario.caller false ∅) input Scenario.blank p "support-bot"
           "support-bot" eq_refl eq_refl Hcall).
Defined.

(** X4: A served request answers with what its provider returned: the
    completion as it is, or the output branch of the split of the stream; the
    provider is the custom model for a custom-model request and the upstream
    provider otherwise. *)
Theorem served_answer_is_provider_completion e ctx input s resp :
  answer (serve e ctx input s) = inr resp ->
  exists p completion,
    parseInput e input = inr p
    /\ resp = handedOver completion
    /\ if isFineTune p
       then exists ft,
              In (GetCompletion2 ft p) (calls (serve e ctx input s))
              /\ getCompletion2 e ft p = inr completion
       else In (GetOpenaiCompletion (projectId (key ctx)) p (in_stream input))
               (calls (serve e ctx input s))
            /\ getOpenaiCompletion e (projectId (key ctx)) p (in_stream input)
               = inr completion.
Proof.
  rewrite serve_unfold. unfold answer, calls. simpl. intros H.
  unfold_handler.
  cases;
    match goal with
    | H : getCompletion2 _ _ _ = inr ?c |- _ => eexists _, c
    | H : getOpenaiCompletion _ _ _ _ = inr ?c |- _ => eexists _, c
    end;
    (split; [reflexivity|]); (split; [reflexivity|]);
    match goal with
    | H : isFineTune _ = _ |- _ => rewrite H
    end; simpl; eauto 10.
Qed.

Lemma served_answer_is_provider_completion_witness :
  let input := Scenario.request "gpt-4" true in
  let ctx := Scenario.caller false ∅ in
  let served := serve Scenario.streaming ctx input Scenario.blank in
  let chunks := [Scenario.chunk 0; Scenario.chunk 1; Scenario.chunk 2] in
  answer served = inr (Readable (tee chunks) RightBranch)
  /\ exists p completion,
       parseInput Scenario.streaming input = inr p
       /\ Readable (tee chunks) RightBranch = handedOver completion
       /\ if isFineTune p
          then exists ft,
                 In (GetCompletion2 ft p) (calls served)
                 /\ getCompletion2 Scenario.streaming ft p = inr completion
          else In (GetOpenaiCompletion "project-1" p true) (calls served)
               /\ getOpenaiCompletion Scenario.streaming "project-1" p true
                  = inr completion.
Proof.
  intros input ctx served chunks.
  assert (H : answer served = inr (Readable (tee chunks) RightBranch))
    by (vm_compute; reflexivity).
  split; [exact H|].
  exact (served_answer_is_provider_completion Scenario.streaming ctx input
           Scenario.blank _ H).
Defined.

(** ** Failures *)

(** X5: An input that does not parse is rejected with the parser's error as it
    is: no collaborator is called and nothing is launched or logged. *)
Theorem unparsed_input_untouched e ctx input s failure :
  parseInput e input = inl failure ->
  serve e ctx input s = (inl failure, [], s).
Proof.
  intros Hp. unfold serve, createChatCompletion, bind, lift.
  by rewrite Hp.
Qed.

Lemma unparsed_input_untouched_witness :
  let input := {| in_reqPayload := Some (JNum 1);
                  in_object := JObj [("model", JStr "gpt-4")];
                  in_stream := false |} in
  parseInput Scenario.healthy input = inl (ZodError "Required")
  /\ serve Scenario.healthy (Scenario.caller false ∅) input Scenario.blank
     = (inl (ZodError "Required"), [], Scenario.blank).
Proof.
  intros input. split; [reflexivity|].
  exact (unparsed_input_untouched Scenario.healthy (Scenario.caller false ∅)
           input Scenario.blank (ZodError "Required") eq_refl).
Defined.

(** X6: A storage fault while the custom model is looked up is not a tRPC
    error: it reaches the caller as it was raised, no provider is called and
    nothing is launched, so the failure is not logged. *)
Theorem lookup_fault_rethrown_unlogged e ctx input s p m :
  parseInput e input = inr p ->
  isFineTune p = true ->
  (headerTags e ctx enter).2 = inr tt ->
  readFault e = Some m ->
  answer (serve e ctx input s) = inl (Error m)
  /\ calls (serve e ctx input s)
     = [FindUnique (removeFirst "openpipe:" (model p))]
  /\ after (serve e ctx input s) = s.
Proof.
  intros Hp Hft Htags Hfault.
  rewrite serve_unfold. unfold answer, calls, after. simpl.
  unfold_handler. rewrite Hp. simpl. by cases.
Qed.

Lemma lookup_fault_rethrown_unlogged_witness :
  let e := withReadFault (Some "Can't reach database server")
             Scenario.healthy in
  let input := Scenario.request "openpipe:support-bot" false in
  let ctx := Scenario.caller false ∅ in
  let p := {| model := "openpipe:support-bot"; payload := in_object input |} in
  parseInput e input = inr p
  /\ isFineTune p = true
  /\ (headerTags e ctx enter).2 = inr tt
  /\ readFault e = Some "Can't reach database server"
  /\ answer (serve e ctx input Scenario.blank)
     = inl (Error "Can't reach database server")
  /\ calls (serve e ctx input Scenario.blank)
     = [FindUnique (removeFirst "openpipe:" (model p))]
  /\ after (serve e ctx input Scenario.blank) = Scenario.blank.
Proof.
  intros e input ctx p.
  split; [reflexivity|]. split; [reflexivity|]. split; [reflexivity|].
  split; [reflexivity|].
  exact (lookup_fault_rethrown_unlogged e ctx input Scenario.blank p
           "Can't reach database server" eq_refl eq_refl eq_refl eq_refl).
Defined.

(** X7: A failure of the custom-model endpoint is printed on the console and
    reaches the caller as BAD_REQUEST, under the message of the failure. *)
Theorem custom_model_failure_translated e ctx input s ft p failure :
  In (GetCompletion2 ft p) (calls (serve e ctx input s)) ->
  getCompletion2 e ft p = inl failure ->
  let m := "Failed to get fine-tune completion: " +:+ message failure in
  answer (serve e ctx input s)
  = inl (ExtendedTRPCError BAD_REQUEST m
           (statusCodeFromTrpcCode e BAD_REQUEST) m)
  /\ In (ConsoleError (message failure)) (calls (serve e ctx input s)).
Proof.
  intros Hcall Hfail m. subst m.
  rewrite serve_unfold in *. unfold answer, calls in *. simpl in *.
  unfold_handler.
  cases; simpl in *; intuition; simplify_eq; try done; try congruence;
    match goal with
    | H1 : getCompletion2 ?e ?f ?p = inl ?a,
      H2 : getCompletion2 ?e ?f ?p = inl ?b |- _ =>
        rewrite H1 in H2; injection H2 as <-; auto
    end.
Qed.

Lemma custom_model_failure_translated_witness :
  let e := withCustomModel (fun _ _ => inl (Error "model is still deploying"))
             Scenario.healthy in
  let input := Scenario.request "openpipe:support-bot" false in
  let ctx := Scenario.caller false ∅ in
  let p := {| model := "openpipe:support-bot"; payload := in_object input |} in
  let m := "Failed to get fine-tune completion: model is still deploying" in
  In (GetCompletion2 Scenario.supportBot p)
     (calls (serve e ctx input Scenario.blank))
  /\ getCompletion2 e Scenario.supportBot p
     = inl (Error "model is still deploying")
  /\ answer (serve e ctx input Scenario.blank)
     = inl (ExtendedTRPCError BAD_REQUEST m 400 m)
  /\ In (ConsoleError "model is still deploying")
        (calls (serve e ctx input Scenario.blank)).
Proof.
  intros e input ctx p m.
  assert (Hcall : In (GetCompletion2 Scenario.supportBot p)
                     (calls (serve e ctx input Scenario.blank)))
    by (vm_compute; right; left; reflexivity).
  split; [exact Hcall|]. split; [reflexivity|].
  exact (custom_model_failure_translated e ctx input Scenario.blank
           Scenario.supportBot p (Error "model is still deploying")
           Hcall eq_refl).
Defined.

(** X8: The errors a valid request can end with: the error of a storage fault,
    as it was raised, or a translated error whose extra status is the status
    of its code, and whose code is BAD_REQUEST, NOT_FOUND, FORBIDDEN or the
    code derived from the status of an upstream error. *)
Theorem completion_error_taxonomy e ctx input s p failure :
  parseInput e input = inr p ->
  answer (serve e ctx input s) = inl failure ->
  (exists m, failure = Error m /\ readFault e = Some m)
  \/ exists code msg,
       failure = ExtendedTRPCError code msg (statusCodeFromTrpcCode e code) msg
       /\ (code = BAD_REQUEST \/ code = NOT_FOUND \/ code = FORBIDDEN
           \/ exists status upstream,
                getOpenaiCompletion e (projectId (key ctx)) p
                  (in_stream input) = inl (APIError status upstream)
                /\ code = trpcCodeFromHttpStatus e status).
Proof.
  intros Hp. rewrite serve_unfold. unfold answer. simpl.
  unfold_handler. rewrite Hp. simpl. intros H.
  cases; eauto 12.
Qed.

Lemma completion_error_taxonomy_witness :
  let e := Scenario.deployment
             (inl (APIError (Some 429) "Rate limit reached")) None in
  let input := Scenario.request "gpt-4" false in
  let ctx := Scenario.caller false ∅ in
  let p := {| model := "gpt-4"; payload := in_object input |} in
  let failure := ExtendedTRPCError TOO_MANY_REQUESTS "Rate limit reached"
                   429 "Rate limit reached" in
  parseInput e input = inr p
  /\ answer (serve e ctx input Scenario.blank) = inl failure
  /\ ((exists m, failure = Error m /\ readFault e = Some m)
      \/ exists code msg,
           failure
           = ExtendedTRPCError code msg (statusCodeFromTrpcCode e code) msg
           /\ (code = BAD_REQUEST \/ code = NOT_FOUND \/ code = FORBIDDEN
               \/ exists status upstream,
                    getOpenaiCompletion e (projectId (key ctx)) p
                      (in_stream input) = inl (APIError status upstream)
                    /\ code = trpcCodeFromHttpStatus e status)).
Proof.
  intros e input ctx p failure.
  assert (H : answer (serve e ctx input Scenario.blank) = inl failure)
    by (vm_compute; reflexivity).
  split; [reflexivity|]. split; [exact H|].
  exact (completion_error_taxonomy e ctx input Scenario.blank p failure
           eq_refl H).
Defined.

(** ** Recording *)

(** X9: Whatever a request launches is given the tags of the header as the
    handler read them: the parsed tags, and no tags when the header is
    missing, empty or rejected. *)
Theorem recorders_carry_header_tags e ctx input s :
  Forall (fun t => taskTags t = tags (headerTags e ctx enter).1)
         (detached (calls (serve e ctx input s)))
  /\ ((headerTags e ctx enter).2 <> inr tt
      \/ truthy (headers ctx !! "op-tags") = false ->
      tags (headerTags e ctx enter).1 = ∅)
  /\ (forall header json parsed,
        headers ctx !! "op-tags" = Some header ->
        truthy (Some header) = true ->
        JSON_parse e header = inr json ->
        parseTags e json = inr parsed ->
        tags (headerTags e ctx enter).1 = parsed).
Proof.
  rewrite serve_unfold. unfold calls. simpl. split; [|split].
  - unfold_handler. cases; simpl; repeat constructor.
  - unfold_handler. unfold truthy. intros [H|H]; by cases.
  - intros header json parsed Hh Ht Hj Hp. unfold_handler.
    rewrite Hh. unfold truthy in *. rewrite Ht, Hj, Hp. done.
Qed.

Lemma recorders_carry_header_tags_witness :
  let ctx := Scenario.caller false {[ "op-tags" := "{}" ]} in
  let input := Scenario.request "gpt-4" false in
  headers ctx !! "op-tags" = Some "{}"
  /\ truthy (Some "{}") = true
  /\ JSON_parse Scenario.healthy "{}" = inr (JObj [])
  /\ parseTags Scenario.healthy (JObj []) = inr ∅
  /\ tags (headerTags Scenario.healthy ctx enter).1 = ∅
  /\ Forall (fun t => taskTags t = tags (headerTags Scenario.healthy ctx enter).1)
       (detached (calls (serve Scenario.healthy ctx input Scenario.blank))).
Proof.
  intros ctx input.
  destruct (recorders_carry_header_tags Scenario.healthy ctx input
              Scenario.blank) as (Hall & _ & Hparsed).
  split; [reflexivity|]. split; [reflexivity|]. split; [reflexivity|].
  split; [reflexivity|]. split; [|exact Hall].
  exact (Hparsed "{}" (JObj []) ∅ eq_refl eq_refl eq_refl eq_refl).
Defined.

Lemma served_write_failure_captured_witness :
  let e := Scenario.deployment (inr (Single Scenario.hello))
             (Some "Can't reach database server") in
  let input := Scenario.request "gpt-4" false in
  let ctx := Scenario.caller false ∅ in
  let p := {| model := "gpt-4"; payload := in_object input |} in
  answer (serve e ctx input Scenario.blank) = inr (Completed Scenario.hello)
  /\ parseInput e input = inr p
  /\ logRequest ctx p = true
  /\ writeFault e = Some "Can't reach database server"
  /\ sentry (after (serve e ctx input Scenario.blank))
     = [] ++ ["Can't reach database server"]
  /\ unhandled (after (serve e ctx input Scenario.blank)) = []
  /\ loggedCalls (after (serve e ctx input Scenario.blank)) = [].
Proof.
  intros e input ctx p.
  assert (H : answer (serve e ctx input Scenario.blank)
              = inr (Completed Scenario.hello)) by (vm_compute; reflexivity).
  split; [exact H|]. split; [reflexivity|]. split; [reflexivity|].
  split; [reflexivity|].
  exact (served_write_failure_captured e ctx input Scenario.blank
           (Completed Scenario.hello) p "Can't reach database server"
           H eq_refl eq_refl eq_refl).
Defined.

Lemma at_most_one_logged_call_witness :
  let input := Scenario.request "gpt-4" false in
  let ctx := Scenario.caller false ∅ in
  parseInput Scenario.healthy input
  = inr {| model := "gpt-4"; payload := in_object input |}
  /\ exists rows,
       loggedCalls (after (serve Scenario.healthy ctx input Scenario.blank))
       = [] ++ rows
       /\ (length rows <= 1)%nat.
Proof.
  intros input ctx. split; [reflexivity|].
  exact (at_most_one_logged_call Scenario.healthy ctx input Scenario.blank
           _ eq_refl).
Defined.

(** ** report *)

(** X12: [report] is all or nothing.  When it returns, the status is ok and
    exactly one row has been appended to the log: it carries the project of
    the caller's key, and the payloads, status code, error message and
    received-at time as they were supplied.  When it fails, the store is as it
    was. *)
Theorem report_all_or_nothing e ctx input s :
  match (report e ctx input s).2 with
  | inr status =>
      status = StatusOk
      /\ exists row,
           (report e ctx input s).1
           = {| loggedCalls := loggedCalls s ++ [row];
                sentry := sentry s;
                unhandled := unhandled s |}
           /\ lc_projectId row = projectId (key ctx)
           /\ lc_requestedAt row = requestedAtOrNow e input
           /\ lc_receivedAt row = rp_receivedAt input
           /\ lc_reqPayload row = rp_reqPayload input
           /\ lc_respPayload row = rp_respPayload input
           /\ lc_statusCode row = rp_statusCode input
           /\ lc_errorMessage row = rp_errorMessage input
  | inl _ => (report e ctx input s).1 = s
  end.
Proof.
  unfold_report. simpl.
  destruct (readOnly (key ctx)); simpl; [done|].
  destruct (reqValidator e (rp_reqPayload input)) as [reqData|],
    (rp_respPayload input ≫= chatCompletionOutput e) as [respData|];
    simpl; try destruct (readFault e); simpl; try done;
    destruct (parseTags e (rp_tags input)) as [failure|parsed]; simpl;
    try done;
    destruct (writeFault e); simpl; try done;
    (split; [done|]); eexists; (split; [reflexivity|]); by repeat split.
Qed.

(** X13: The errors [report] can end with: FORBIDDEN for a read-only key,
    BAD_REQUEST for tags that do not parse and for a write that the log store
    rejects, and the error of a storage fault as it was raised, which can only
    happen when both payloads validate, since only then is the custom-model
    table read. *)
Theorem report_error_taxonomy e ctx input s failure :
  (report e ctx input s).2 = inl failure ->
  (readOnly (key ctx) = true
   /\ failure = TRPCError FORBIDDEN
                  "Read-only API keys cannot report API calls")
  \/ (exists cause,
        parseTags e (rp_tags input) = inl cause
        /\ failure = TRPCError BAD_REQUEST
                       ("Failed to parse tags: " +:+ message cause))
  \/ (exists m,
        writeFault e = Some m
        /\ failure = TRPCError BAD_REQUEST
                       ("Failed to create logged call: " +:+ m))
  \/ (exists m reqData respData,
        readFault e = Some m
        /\ failure = Error m
        /\ reqValidator e (rp_reqPayload input) = Some reqData
        /\ spa (chatCompletionOutput e) (rp_respPayload input)
           = Some respData).
Proof.
  unfold_report. simpl.
  destruct (readOnly (key ctx)); simpl; [intros; simplify_eq; auto|].
  destruct (reqValidator e (rp_reqPayload input)) as [reqData|],
    (rp_respPayload input ≫= chatCompletionOutput e) as [respData|];
    simpl; try destruct (readFault e); simpl;
    destruct (parseTags e (rp_tags input)) as [cause|parsed]; simpl;
    try destruct (writeFault e); simpl; intros H; simplify_eq;
    first [ by right; left; eexists
          | by right; right; left; eexists
          | by right; right; right; eexists _, _, _ ].
Qed.

Lemma report_error_taxonomy_witness :
  let e := Scenario.deployment (inr (Single Scenario.hello))
             (Some "Can't reach database server") in
  let input := Scenario.reported (JObj [("model", JStr "gpt-4")])
                 (Some Scenario.hello) in
  let ctx := Scenario.caller false ∅ in
  let failure :=
    TRPCError BAD_REQUEST
      "Failed to create logged call: Can't reach database server" in
  (report e ctx input Scenario.blank).2 = inl failure
  /\ ((readOnly (key ctx) = true
       /\ failure = TRPCError FORBIDDEN
                      "Read-only API keys cannot report API calls")
      \/ (exists cause,
            parseTags e (rp_tags input) = inl cause
            /\ failure = TRPCError BAD_REQUEST
                           ("Failed to parse tags: " +:+ message cause))
      \/ (exists m,
            writeFault e = Some m
            /\ failure = TRPCError BAD_REQUEST
                           ("Failed to create logged call: " +:+ m))
      \/ (exists m reqData respData,
            readFault e = Some m
            /\ failure = Error m
            /\ reqValidator e (rp_reqPayload input) = Some reqData
            /\ spa (chatCompletionOutput e) (rp_respPayload input)
               = Some respData)).
Proof.
  intros e input ctx failure.
  assert (H : (report e ctx input Scenario.blank).2 = inl failure)
    by (vm_compute; reflexivity).
  split; [exact H|].
  exact (report_error_taxonomy e ctx input Scenario.blank failure H).
Defined.

(** X14: Reporting is additive: a report that is accepted is accepted again
    and, the collaborators and the clock reading being the same, the second
    report appends a second row equal to the first; nothing is merged or
    replaced. *)
Theorem report_twice_appends_twice e ctx input s :
  (report e ctx input s).2 = inr StatusOk ->
  (report e ctx input (report e ctx input s).1).2 = inr StatusOk
  /\ exists row,
       loggedCalls (report e ctx input s).1 = loggedCalls s ++ [row]
       /\ loggedCalls (report e ctx input (report e ctx input s).1).1
          = loggedCalls s ++ [row; row].
Proof.
  unfold_report. simpl.
  destruct (readOnly (key ctx)); simpl; [done|].
  destruct (reqValidator e (rp_reqPayload input)) as [reqData|],
    (rp_respPayload input ≫= chatCompletionOutput e) as [respData|];
    simpl; try destruct (readFault e); simpl; try done;
    destruct (parseTags e (rp_tags input)) as [failure|parsed]; simpl;
    try done;
    destruct (writeFault e); simpl; try done;
    intros _; (split; [done|]); eexists; (split; [reflexivity|]);
    by rewrite <- app_assoc.
Qed.

Lemma report_twice_appends_twice_witness :
  let input := Scenario.reported (JObj [("model", JStr "gpt-4")])
                 (Some Scenario.hello) in
  let ctx := Scenario.caller false ∅ in
  let once := (report Scenario.healthy ctx input Scenario.blank).1 in
  (report Scenario.healthy ctx input Scenario.blank).2 = inr StatusOk
  /\ (report Scenario.healthy ctx input once).2 = inr StatusOk
  /\ exists row,
       loggedCalls once = [] ++ [row]
       /\ loggedCalls (report Scenario.healthy ctx input once).1
          = [] ++ [row; row].
Proof.
  intros input ctx once.
  assert (H : (report Scenario.healthy ctx input Scenario.blank).2
              = inr StatusOk) by (vm_compute; reflexivity).
  split; [exact H|].
  exact (report_twice_appends_twice Scenario.healthy ctx input
           Scenario.blank H).
Defined.

(** * The latest logged call *)

Lemma later_fold_some table : forall kept,
  exists row, foldl later (Some kept) table = Some row
    /\ (row = kept \/ In row table)
    /\ row_requestedAt kept <= row_requestedAt row
    /\ forall other, In other table ->
         row_requestedAt other <= row_requestedAt row.
Proof.
  induction table as [|r table IH]; intros kept; simpl.
  - exists kept. repeat split; [by left|lia|by intros].
  - destruct (Z.ltb_spec (row_requestedAt kept) (row_requestedAt r)).
    + destruct (IH r) as (row & Hrow & Hin & Hle & Hmax).
      exists row. split; [done|]. split; [right; destruct Hin; subst; auto|].
      split; [lia|]. intros other [<-|Hother]; auto.
    + destruct (IH kept) as (row & Hrow & Hin & Hle & Hmax).
      exists row. split; [done|]. split; [destruct Hin; auto|].
      split; [done|]. intros other [<-|Hother]; [lia|auto].
Qed.

Lemma latestOf_some project table row :
  latestOf project table = Some row ->
  In row table
  /\ row_projectId row = project
  /\ forall other, In other table -> row_projectId other = project ->
       row_requestedAt other <= row_requestedAt row.
Proof.
  unfold latestOf. intros H.
  assert (Hmine : forall r,
            In r (filter (fun row => row_projectId row = project) table)
            <-> In r table /\ row_projectId r = project).
  { intros r. rewrite <- !list_elem_of_In, list_elem_of_filter. tauto. }
  destruct (filter (fun row => row_projectId row = project) table)
    as [|first rest] eqn:E; [done|].
  simpl in H. destruct (later_fold_some rest first)
    as (row' & Hrow & Hin & Hle & Hmax).
  rewrite Hrow in H. injection H as ->.
  assert (Hrow_in : In row (first :: rest))
    by (destruct Hin; [left; congruence|by right]).
  apply Hmine in Hrow_in as [Hin_table Hproject].
  split; [done|]. split; [done|].
  intros other Hother Hp.
  assert (Hfiltered : In other (first :: rest)) by by apply Hmine.
  destruct Hfiltered as [<-|Hrest]; [done|by apply Hmax].
Qed.

Lemma latestOf_none project table :
  latestOf project table = None ->
  forall row, In row table -> row_projectId row <> project.
Proof.
  unfold latestOf. intros H row Hin Hp.
  assert (Hf : In row (filter (fun row => row_projectId row = project) table)).
  { rewrite <- list_elem_of_In, list_elem_of_filter, list_elem_of_In. done. }
  destruct (filter (fun row => row_projectId row = project) table)
    as [|first rest]; [done|].
  simpl in H. destruct (later_fold_some rest first) as (r & Hr & _).
  congruence.
Qed.

(** X15: Outside production, the procedure fails exactly when the read of
    the log rejects, and then with the error of the read as it was raised.
    When the read answers, the latest logged call is a row of the caller's
    own project, and no row of that project was requested later; nothing is
    returned exactly when the project has no row. *)
Theorem latest_is_own_and_most_recent e nodeEnv ctx table :
  same nodeEnv "production" = false ->
  match localTestingOnlyGetLatestLoggedCall e nodeEnv ctx table with
  | inr (Some found) =>
      readFault e = None
      /\ exists row,
           In row table
           /\ found = withTagObject row
           /\ row_projectId row = projectId (key ctx)
           /\ forall other,
                In other table ->
                row_projectId other = projectId (key ctx) ->
                row_requestedAt other <= row_requestedAt row
  | inr None =>
      readFault e = None
      /\ forall row, In row table -> row_projectId row <> projectId (key ctx)
  | inl failure => exists m, readFault e = Some m /\ failure = Error m
  end.
Proof.
  intros Hdev. unfold localTestingOnlyGetLatestLoggedCall, findFirst.
  rewrite Hdev. destruct (readFault e) as [m|]; [by exists m|].
  destruct (latestOf (projectId (key ctx)) table) as [row|] eqn:E; simpl.
  - split; [done|].
    exists row. apply latestOf_some in E as (Hin & Hp & Hmax). by repeat split.
  - split; [done|]. by apply latestOf_none.
Qed.

(** In production the procedure refuses, whatever the log holds and
    whether it can be read or not. *)
Lemma latest_refused_in_production e ctx table :
  localTestingOnlyGetLatestLoggedCall e (Some "production") ctx table
  = inl (Error "This operation is not allowed in production environment").
Proof. reflexivity. Qed.

Lemma fromEntries_snoc {V} (entries : list (string * V)) k v :
  fromEntries (entries ++ [(k, v)]) = <[k := v]> (fromEntries entries).
Proof. unfold fromEntries. by rewrite foldl_app. Qed.

(** X16: The tag object holds, under each name, the value of the last tag row
    of that name. *)
Theorem latest_tags_last_wins row name :
  latest_tags (withTagObject row) !! name
  = tag_value <$> last (filter (fun tag => tag_name tag = name) (row_tags row)).
Proof.
  unfold withTagObject. simpl.
  induction (row_tags row) as [|tag tags IH] using rev_ind; [done|].
  rewrite map_app, filter_app. simpl. rewrite fromEntries_snoc.
  rewrite filter_cons, filter_nil.
  destruct (decide (tag_name tag = name)) as [<-|Hne].
  - rewrite lookup_insert_eq, last_snoc. done.
  - rewrite lookup_insert_ne by done. by rewrite app_nil_r.
Qed.

(** * The head-to-head comparison modal *)

(** X17: Every result is counted at most once by the header: wins, ties and
    losses, with the results whose score is null or not a number, add up to
    the number of results. *)
Theorem tally_partitions_results comparisonResults :
  let '(numWins, numTies, numLosses) := tally (Some comparisonResults) in
  (numWins + numTies + numLosses
   + length (filter (fun result => unscored result = true) comparisonResults)
   = length comparisonResults)%nat.
Proof.
  simpl. induction comparisonResults as [|r rs IH]; [done|].
  rewrite !filter_cons. unfold isWin, isTie, isLoss, unscored in *.
  destruct (cr_score r) as [[|[]|q]|]; simpl;
    try destruct (Qcompare q (1 # 2)); simpl;
    repeat case_decide; try done; simpl; lia.
Qed.

Lemma settled_shows r :
  settledStatus r = true ->
  shows "WIN" r = isWin r /\ shows "TIE" r = isTie r
  /\ shows "LOSS" r = isLoss r.
Proof.
  unfold settledStatus, shows, comparisonText, isWin, isTie, isLoss.
  intros H. apply andb_true_iff in H as [H Herr].
  apply andb_true_iff in H as [Hpen Hprog].
  apply negb_true_iff in Herr, Hpen, Hprog. rewrite Herr, Hpen, Hprog.
  destruct (cr_score r) as [[|[]|q]|]; simpl;
    try destruct (Qcompare q (1 # 2)); done.
Qed.

Lemma unsettled_shows r :
  settledStatus r = false ->
  shows "WIN" r = false /\ shows "TIE" r = false /\ shows "LOSS" r = false.
Proof.
  unfold settledStatus, shows, comparisonText. intros H.
  destruct (String.eqb (cr_status r) "PENDING"); [done|].
  destruct (String.eqb (cr_status r) "IN_PROGRESS"); [done|].
  destruct (String.eqb (cr_status r) "ERROR"); [done|]. done.
Qed.

Lemma filter_length_le_pointwise {A} (f g : A -> bool) (l : list A) :
  (forall x, f x = true -> g x = true) ->
  (length (filter (fun x => f x = true) l)
   <= length (filter (fun x => g x = true) l))%nat.
Proof.
  intros H. induction l as [|x l IH]; [done|].
  rewrite !filter_cons. specialize (H x).
  destruct (f x), (g x); repeat case_decide; simpl; try done; try lia;
    by specialize (H eq_refl).
Qed.

Lemma filter_length_eq_pointwise {A} (f g : A -> bool) (l : list A) :
  Forall (fun x => f x = g x) l ->
  length (filter (fun x => f x = true) l)
  = length (filter (fun x => g x = true) l).
Proof.
  induction 1 as [|x l Hx _ IH]; [done|].
  rewrite !filter_cons, Hx.
  destruct (g x); repeat case_decide; simpl; try done; lia.
Qed.

(** X18: The header counts by score alone, the rows show the status first: the
    rows that show WIN, TIE and LOSS are never more than the header's wins,
    ties and losses, and they are as many when no result is pending, in
    progress or in error. *)
Theorem tally_covers_texts comparisonResults :
  let '(numWins, numTies, numLosses) := tally (Some comparisonResults) in
  let shown text :=
    length (filter (fun result => shows text result = true)
                   comparisonResults) in
  (shown "WIN" <= numWins /\ shown "TIE" <= numTies
   /\ shown "LOSS" <= numLosses)%nat
  /\ (Forall (fun result => settledStatus result = true) comparisonResults ->
      shown "WIN" = numWins /\ shown "TIE" = numTies
      /\ shown "LOSS" = numLosses).
Proof.
  simpl. split.
  - repeat split; apply filter_length_le_pointwise; intros r Hr;
      destruct (settledStatus r) eqn:Hs;
      try (destruct (settled_shows r Hs) as (H1 & H2 & H3); congruence);
      destruct (unsettled_shows r Hs) as (H1 & H2 & H3); congruence.
  - intros Hall.
    repeat split; apply filter_length_eq_pointwise;
      (eapply Forall_impl; [exact Hall|]); intros r Hs;
      by destruct (settled_shows r Hs) as (H1 & H2 & H3).
Qed.

(** A result in error that has a score is counted as a win by the header
    while its row shows ERROR. *)
Example errored_win_counted_not_shown :
  let result := {| cr_modelId := "m"; cr_status := "ERROR";
                   cr_score := Some (Finite (1 # 4)) |} in
  tally (Some [result]) = (1, 0, 0)%nat
  /\ comparisonText result = Text "red.500" "ERROR".
Proof. by vm_compute. Qed.

(** * Authentication options *)

Lemma findUserByEmail_some email w user :
  findUserByEmail email w = Some user ->
  In user (users w) /\ user_email user = Some email.
Proof.
  unfold findUserByEmail. intros H. apply find_some in H as [Hin Hb].
  by apply bool_decide_eq_true in Hb.
Qed.




(** X20: Without an email address [authorize] fails and creates nothing. *)
Lemma authorize_requires_email cuid credentials w :
  truthy (credentials ≫= (fun c => c !! "email")) = false ->
  authorize cuid credentials w = (w, inl (Error "Email is required")).
Proof. unfold authorize. by intros ->. Qed.

(** X21: A user that [authorize] creates gets one account of the credentials
    provider, under its own id. *)
Lemma authorize_creates_account cuid credentials w w' user :
  authorize cuid credentials w = (w', inr user) ->
  ~ In user (users w) ->
  users w' = users w ++ [user]
  /\ accounts w'
     = accounts w ++ [{| account_userId := user_id user;
                         account_provider := "credentials";
                         account_type := "credentials";
                         account_providerAccountId := user_id user |}]
  /\ user_id user = cuid.
Proof.
  unfold authorize, try_catch, throw.
  destruct (credentials ≫= (fun c => c !! "email")) as [email|]; simpl;
    [|done].
  destruct (String.eqb email EmptyString); simpl; [done|].
  destruct (findUserByEmail email w) as [found|] eqn:Hfind; intros H Hnew;
    simplify_eq; [|done].
  by destruct (findUserByEmail_some _ _ _ Hfind).
Qed.




(** * The dataset import *)

Lemma bind_returns {S A B} (m : M S A) (k : A -> M S B) s s' b :
  bind m k s = (s', inr b) ->
  exists s1 a, m s = (s1, inr a) /\ k a s1 = (s', inr b).
Proof.
  unfold bind. destruct (m s) as [s1 [failure|a]]; [done|]. eauto.
Qed.

Lemma call_returns e c made made' :
  call e c made = (made', inr tt) ->
  made' = made ++ [c] /\ rejects e c = None.
Proof.
  unfold call. destruct (rejects e c); intros H; by simplify_eq.
Qed.

(** A batch of the loop: the next thousand rows, or what is left. *)
Lemma slice_batch {A} (rows : list A) (k : nat) :
  (k < length rows)%nat ->
  slice (Z.of_nat k) (Z.of_nat k + 1000) rows = take 1000 (drop k rows).
Proof.
  intros Hk. unfold slice, relativeIndex.
  destruct (Z.ltb_spec (Z.of_nat k) 0); [lia|].
  destruct (Z.ltb_spec (Z.of_nat k + 1000) 0); [lia|].
  rewrite (Z.min_l (Z.of_nat k)) by lia. rewrite Nat2Z.id.
  destruct (decide (k + 1000 <= length rows)%nat).
  - rewrite Z.min_l by lia.
    by replace (Z.to_nat (Z.of_nat k + 1000 - Z.of_nat k)) with 1000%nat
      by lia.
  - rewrite Z.min_r by lia.
    rewrite !take_ge; [done| |]; rewrite length_drop; lia.
Qed.

Lemma saveInBatches_returns e createMany base factor rows :
  forall fuel k made made',
    (length rows < k + fuel)%nat ->
    saveInBatches e fuel createMany base factor rows (Z.of_nat k) made
    = (made', inr tt) ->
    exists batches,
      made' = made ++ batchCalls createMany batches
      /\ concat (map fst batches) = drop k rows
      /\ Forall wellSized batches.
Proof.
  induction fuel as [|fuel IH]; intros k made made' Hfuel Hrun; simpl in Hrun.
  - unfold ret in Hrun. simplify_eq. exists []. simpl.
    rewrite app_nil_r, drop_ge by lia. done.
  - destruct (Z.ltb_spec (Z.of_nat k) (Z.of_nat (length rows))) as [Hlt|Hge].
    + rewrite slice_batch in Hrun by lia.
      apply bind_returns in Hrun as (m1 & [] & Hcreate & Hrun).
      apply call_returns in Hcreate as [-> _].
      apply bind_returns in Hrun as (m2 & [] & Hupdate & Hrun).
      apply call_returns in Hupdate as [-> _].
      replace (Z.of_nat k + 1000) with (Z.of_nat (k + 1000)) in Hrun by lia.
      apply IH in Hrun as (batches & -> & Hconcat & Hsizes); [|lia].
      eexists ((take 1000 (drop k rows), _) :: batches).
      split; [|split].
      * simpl. by rewrite <- !app_assoc.
      * simpl. rewrite Hconcat, <- drop_drop. apply take_drop.
      * constructor; [|done]. unfold wellSized. simpl.
        rewrite length_take, length_drop. repeat split; lia.
    + unfold ret in Hrun. simplify_eq. exists []. simpl.
      rewrite app_nil_r, drop_ge by lia. done.
Qed.

Lemma saveAll_returns e createMany base factor rows made made' :
  saveAll e createMany base factor rows made = (made', inr tt) ->
  exists batches,
    made' = made ++ batchCalls createMany batches
    /\ concat (map fst batches) = rows
    /\ Forall wellSized batches.
Proof.
  unfold saveAll. intros H.
  apply (saveInBatches_returns _ _ _ _ _ _ 0%nat) in H; [|lia]. done.
Qed.

Lemma reportProgress_returns e upload reported : forall made made',
  reportProgress e upload reported made = (made', inr tt) ->
  made' = made ++ map (fun progress =>
                         UpdateUpload
                           (progressUpdate
                              (5 + floorScaled e 60 progress
                                     (fileSize upload)))) reported.
Proof.
  induction reported as [|progress rest IH]; intros made made' H; simpl in *.
  - unfold ret in H. simplify_eq. by rewrite app_nil_r.
  - apply bind_returns in H as (m1 & [] & Hup & H).
    apply call_returns in Hup as [-> _].
    apply IH in H as ->. by rewrite <- app_assoc.
Qed.

(** The run of an import that returns, for an upload that exists: either
    the rows could not be prepared and the run ends there, or every call
    up to the last update has been made. *)
Lemma import_run e projectId nodeId dataChannelId maxEntriesToImport upload
    made :
  fileUpload e = Some upload ->
  importDatasetEntries e projectId nodeId dataChannelId maxEntriesToImport []
  = (made, inr tt) ->
  let download :=
    downloadBlobToStrings e (blobName upload) (maxEntriesToImport * 2) in
  exists rawRows,
    download.2 = inr rawRows
    /\ let rows := parseRowsToImport e rawRows in
       let opening :=
         [FindUpload; UpdateUpload (statusUpdate "DOWNLOADING" 5);
          DownloadBlob (blobName upload) (maxEntriesToImport * 2)]
         ++ map (fun progress =>
                   UpdateUpload
                     (progressUpdate
                        (5 + floorScaled e 60 progress (fileSize upload))))
                download.1
         ++ (if tooManyErrors rows
             then [UpdateUpload (invalidJsonl (errorRows rows))] else [])
         ++ [UpdateUpload (statusUpdate "PROCESSING" 60)] in
       match prepareDatasetEntriesForImport e projectId nodeId dataChannelId
               (entriesToImport e nodeId maxEntriesToImport (goodRows rows))
       with
       | inl failure =>
           made = opening
                  ++ [UpdateUpload
                        {| set_status := Some "ERROR"; set_progress := None;
                           set_errorMessage :=
                             Some ("Error preparing rows: "
                                     +:+ message failure);
                           set_visible := Some true |}]
       | inr prepared =>
           exists inputs outputs nodeData,
             made = opening
                    ++ [UpdateUpload (statusUpdate "SAVING" 70)]
                    ++ batchCalls CreateManyInputs inputs
                    ++ batchCalls CreateManyOutputs outputs
                    ++ batchCalls CreateManyNodeData nodeData
                    ++ [UpdateUpload (progressUpdate 95);
                        UpdateUpload (progressUpdate 99);
                        EnqueueCountTokens; UpdateUpload completeUpdate]
             /\ concat (map fst inputs) = datasetEntryInputsToCreate prepared
             /\ concat (map fst outputs)
                = datasetEntryOutputsToCreate prepared
             /\ concat (map fst nodeData) = nodeDataToCreate prepared
             /\ Forall wellSized (inputs ++ outputs ++ nodeData)
       end.
Proof.
  intros Hupload Hrun download. unfold importDatasetEntries in Hrun.
  rewrite Hupload in Hrun. fold download in Hrun.
  apply bind_returns in Hrun as (m & [] & H & Hrun).
  apply call_returns in H as [-> _].
  apply bind_returns in Hrun as (m & [] & H & Hrun).
  apply call_returns in H as [-> _].
  apply bind_returns in Hrun as (m & [] & H & Hrun).
  apply call_returns in H as [-> _].
  apply bind_returns in Hrun as (m & [] & H & Hrun).
  apply reportProgress_returns in H as ->.
  apply bind_returns in Hrun as (m & rawRows & H & Hrun).
  unfold lift in H. injection H as <- Hdownload.
  exists rawRows. split; [done|]. simpl.
  apply bind_returns in Hrun as (m & [] & H & Hrun).
  assert (Hm : m = ([FindUpload; UpdateUpload (statusUpdate "DOWNLOADING" 5);
                     DownloadBlob (blobName upload) (maxEntriesToImport * 2)]
                    ++ map (fun progress =>
                              UpdateUpload
                                (progressUpdate
                                   (5 + floorScaled e 60 progress
                                          (fileSize upload)))) download.1)
                   ++ (if tooManyErrors (parseRowsToImport e rawRows)
                       then [UpdateUpload
                               (invalidJsonl
                                  (errorRows (parseRowsToImport e rawRows)))]
                       else [])).
  { destruct (tooManyErrors (parseRowsToImport e rawRows)).
    - by apply call_returns in H as [-> _].
    - unfold ret in H. simplify_eq. by rewrite app_nil_r. }
  subst m. clear H.
  apply bind_returns in Hrun as (m & [] & H & Hrun).
  apply call_returns in H as [-> _].
  destruct (prepareDatasetEntriesForImport e projectId nodeId dataChannelId
              (entriesToImport e nodeId maxEntriesToImport
                 (goodRows (parseRowsToImport e rawRows))))
    as [failure|prepared].
  - apply call_returns in Hrun as [-> _]. simpl. by rewrite <- !app_assoc.
  - apply bind_returns in Hrun as (m & [] & H & Hrun).
    apply call_returns in H as [-> _].
    apply bind_returns in Hrun as (m & [] & H & Hrun).
    apply saveAll_returns in H as (inputs & -> & Hin & Hsin).
    apply bind_returns in Hrun as (m & [] & H & Hrun).
    apply saveAll_returns in H as (outputs & -> & Hout & Hsout).
    apply bind_returns in Hrun as (m & [] & H & Hrun).
    apply saveAll_returns in H as (nodeData & -> & Hnode & Hsnode).
    apply bind_returns in Hrun as (m & [] & H & Hrun).
    apply call_returns in H as [-> _].
    apply bind_returns in Hrun as (m & [] & H & Hrun).
    apply call_returns in H as [-> _].
    apply bind_returns in Hrun as (m & [] & H & Hrun).
    apply call_returns in H as [-> _].
    apply call_returns in Hrun as [-> _].
    exists inputs, outputs, nodeData.
    split; [simpl; by rewrite <- !app_assoc|].
    repeat split; try done. by rewrite !Forall_app.
Qed.

Lemma inputBatches_app a b :
  inputBatches (a ++ b) = inputBatches a ++ inputBatches b.
Proof. apply omap_app. Qed.

Lemma outputBatches_app a b :
  outputBatches (a ++ b) = outputBatches a ++ outputBatches b.
Proof. apply omap_app. Qed.

Lemma nodeDataBatches_app a b :
  nodeDataBatches (a ++ b) = nodeDataBatches a ++ nodeDataBatches b.
Proof. apply omap_app. Qed.

Lemma updates_app a b : updates (a ++ b) = updates a ++ updates b.
Proof. apply omap_app. Qed.

Lemma omap_batchCalls_kept {B} (view : ImportCall -> option B) createMany
    (kept : list Json -> B) batches :
  (forall data, view (createMany data) = Some (kept data)) ->
  (forall data, view (UpdateUpload data) = None) ->
  omap view (batchCalls createMany batches)
  = map (fun batch => kept batch.1) batches.
Proof.
  intros Hkept Hupdate. induction batches as [|b batches IH]; [done|].
  change (batchCalls createMany (b :: batches))
    with ([createMany b.1; UpdateUpload b.2] ++ batchCalls createMany batches).
  rewrite omap_app, IH. simpl. by rewrite Hkept, Hupdate.
Qed.

Lemma omap_batchCalls_dropped {B} (view : ImportCall -> option B) createMany
    batches :
  (forall data, view (createMany data) = None) ->
  (forall data, view (UpdateUpload data) = None) ->
  omap view (batchCalls createMany batches) = [].
Proof.
  intros Hdropped Hupdate. induction batches as [|b batches IH]; [done|].
  change (batchCalls createMany (b :: batches))
    with ([createMany b.1; UpdateUpload b.2] ++ batchCalls createMany batches).
  rewrite omap_app, IH. simpl. by rewrite Hdropped, Hupdate.
Qed.

Lemma batchCalls_views batches :
  inputBatches (batchCalls CreateManyInputs batches) = map fst batches
  /\ inputBatches (batchCalls CreateManyOutputs batches) = []
  /\ inputBatches (batchCalls CreateManyNodeData batches) = []
  /\ outputBatches (batchCalls CreateManyInputs batches) = []
  /\ outputBatches (batchCalls CreateManyOutputs batches) = map fst batches
  /\ outputBatches (batchCalls CreateManyNodeData batches) = []
  /\ nodeDataBatches (batchCalls CreateManyInputs batches) = []
  /\ nodeDataBatches (batchCalls CreateManyOutputs batches) = []
  /\ nodeDataBatches (batchCalls CreateManyNodeData batches)
     = map fst batches.
Proof.
  unfold inputBatches, outputBatches, nodeDataBatches.
  repeat split;
    first [ by apply (omap_batchCalls_kept _ _ (fun data => data))
          | by apply omap_batchCalls_dropped ].
Qed.

Lemma batchCalls_updates createMany batches :
  (forall data, match createMany data with
                | UpdateUpload _ => False
                | _ => True
                end) ->
  updates (batchCalls createMany batches) = map snd batches.
Proof.
  intros Hc. induction batches as [|b batches IH]; [done|].
  change (batchCalls createMany (b :: batches))
    with ([createMany b.1; UpdateUpload b.2] ++ batchCalls createMany batches).
  unfold updates in *. rewrite omap_app, IH. simpl.
  specialize (Hc b.1). by destruct (createMany b.1).
Qed.

Lemma progress_updates_views (f : Z -> Z) reported :
  let made := map (fun progress => UpdateUpload (progressUpdate (f progress)))
                  reported in
  inputBatches made = [] /\ outputBatches made = []
  /\ nodeDataBatches made = []
  /\ updates made = map (fun progress => progressUpdate (f progress)) reported.
Proof.
  induction reported as [|p reported IH]; [done|].
  destruct IH as (H1 & H2 & H3 & H4).
  split; [exact H1|]. split; [exact H2|]. split; [exact H3|].
  exact (f_equal (cons (progressUpdate (f p))) H4).
Qed.

(** An update that sets no status, error message or visibility leaves
    them as they are. *)
Lemma foldl_progress_only record progress :
  Forall (fun data => set_status data = None
                      /\ set_errorMessage data = None
                      /\ set_visible data = None) progress ->
  set_status (foldl applyUpdate record progress) = set_status record
  /\ set_errorMessage (foldl applyUpdate record progress)
     = set_errorMessage record
  /\ set_visible (foldl applyUpdate record progress) = set_visible record.
Proof.
  intros H. revert record.
  induction H as [|data progress (Hs & He & Hv) _ IH]; intros record;
    [done|].
  simpl. destruct (IH (applyUpdate record data)) as (-> & -> & ->).
  unfold applyUpdate. simpl. by rewrite Hs, He, Hv.
Qed.

(** X25: An import that returns after its rows were prepared has saved every
    prepared row exactly once: the batches handed to each [createMany], put
    end to end, are the prepared rows in their order, and every batch holds
    between one and a thousand rows. *)
Theorem import_saves_every_row_once
    e projectId nodeId dataChannelId maxEntriesToImport upload made rawRows
    prepared :
  fileUpload e = Some upload ->
  importDatasetEntries e projectId nodeId dataChannelId maxEntriesToImport []
  = (made, inr tt) ->
  (downloadBlobToStrings e (blobName upload) (maxEntriesToImport * 2)).2
  = inr rawRows ->
  prepareDatasetEntriesForImport e projectId nodeId dataChannelId
    (entriesToImport e nodeId maxEntriesToImport
       (goodRows (parseRowsToImport e rawRows))) = inr prepared ->
  concat (inputBatches made) = datasetEntryInputsToCreate prepared
  /\ concat (outputBatches made) = datasetEntryOutputsToCreate prepared
  /\ concat (nodeDataBatches made) = nodeDataToCreate prepared
  /\ Forall (fun batch => (0 < length batch <= 1000)%nat)
       (inputBatches made ++ outputBatches made ++ nodeDataBatches made).
Proof.
  intros Hupload Hrun Hdownload Hprepared.
  destruct (import_run _ _ _ _ _ _ _ Hupload Hrun) as (raw & Hraw & H).
  rewrite Hdownload in Hraw. injection Hraw as <-.
  cbv zeta in H. rewrite Hprepared in H.
  destruct H as (inputs & outputs & nodeData & -> & Hin & Hout & Hnode & Hs).
  destruct (batchCalls_views inputs)
    as (Hi1 & _ & _ & Ho1 & _ & _ & Hn1 & _ & _).
  destruct (batchCalls_views outputs)
    as (_ & Hi2 & _ & _ & Ho2 & _ & _ & Hn2 & _).
  destruct (batchCalls_views nodeData)
    as (_ & _ & Hi3 & _ & _ & Ho3 & _ & _ & Hn3).
  destruct (progress_updates_views
              (fun progress => 5 + floorScaled e 60 progress (fileSize upload))
              (downloadBlobToStrings e (blobName upload)
                 (maxEntriesToImport * 2)).1) as (Hi0 & Ho0 & Hn0 & _).
  cbv zeta in Hi0, Ho0, Hn0.
  rewrite !inputBatches_app, !outputBatches_app, !nodeDataBatches_app.
  rewrite Hi0, Hi1, Hi2, Hi3, Ho0, Ho1, Ho2, Ho3, Hn0, Hn1, Hn2, Hn3.
  destruct (tooManyErrors (parseRowsToImport e rawRows)); simpl;
    rewrite ?app_nil_r;
    (split; [done|]); (split; [done|]); (split; [done|]);
    rewrite <- !map_app; apply Forall_map;
    (eapply Forall_impl; [exact Hs|]); by intros batch (Hsize & _).
Qed.

Lemma foldl_keeps_errorMessage record data :
  Forall (fun d => set_errorMessage d = None) data ->
  set_errorMessage (foldl applyUpdate record data) = set_errorMessage record.
Proof.
  intros H. revert record.
  induction H as [|d data Hd _ IH]; intros record; [done|].
  simpl. rewrite IH. unfold applyUpdate. simpl. by rewrite Hd.
Qed.

Lemma applyUpdate_keeps_errorMessage record data :
  set_errorMessage data = None ->
  set_errorMessage (applyUpdate record data) = set_errorMessage record.
Proof. unfold applyUpdate. simpl. by intros ->. Qed.

Lemma uploadAfter_snoc made data :
  uploadAfter (made ++ [UpdateUpload data])
  = applyUpdate (uploadAfter made) data.
Proof. unfold uploadAfter. by rewrite updates_app, foldl_app. Qed.

Lemma wellSized_progress_only batches :
  Forall wellSized batches ->
  Forall (fun d => set_errorMessage d = None) (map snd batches).
Proof.
  intros H. apply Forall_map. eapply Forall_impl; [exact H|].
  by intros batch (_ & _ & He & _).
Qed.

(** X26: An import whose rows were prepared ends as COMPLETE, also when too
    many lines had failed to parse: the record then keeps the message of the
    first failing line, under the status COMPLETE, the progress 100 and
    visible, and the token count has been queued. *)
Theorem import_completes_over_parse_errors
    e projectId nodeId dataChannelId maxEntriesToImport upload made rawRows
    prepared :
  fileUpload e = Some upload ->
  importDatasetEntries e projectId nodeId dataChannelId maxEntriesToImport []
  = (made, inr tt) ->
  (downloadBlobToStrings e (blobName upload) (maxEntriesToImport * 2)).2
  = inr rawRows ->
  prepareDatasetEntriesForImport e projectId nodeId dataChannelId
    (entriesToImport e nodeId maxEntriesToImport
       (goodRows (parseRowsToImport e rawRows))) = inr prepared ->
  set_status (uploadAfter made) = Some "COMPLETE"
  /\ set_progress (uploadAfter made) = Some 100
  /\ set_visible (uploadAfter made) = Some true
  /\ set_errorMessage (uploadAfter made)
     = (if tooManyErrors (parseRowsToImport e rawRows)
        then set_errorMessage
               (invalidJsonl (errorRows (parseRowsToImport e rawRows)))
        else None)
  /\ In EnqueueCountTokens made.
Proof.
  intros Hupload Hrun Hdownload Hprepared.
  destruct (import_run _ _ _ _ _ _ _ Hupload Hrun) as (raw & Hraw & H).
  rewrite Hdownload in Hraw. injection Hraw as <-.
  cbv zeta in H. rewrite Hprepared in H.
  destruct H as (inputs & outputs & nodeData & -> & _ & _ & _ & Hs).
  apply Forall_app in Hs as [Hsi Hs]. apply Forall_app in Hs as [Hso Hsn].
  split; [|split; [|split; [|split]]].
  5: { rewrite !in_app_iff. do 5 right. simpl. auto. }
  all: replace [UpdateUpload (progressUpdate 95);
                UpdateUpload (progressUpdate 99);
                EnqueueCountTokens; UpdateUpload completeUpdate]
         with ([UpdateUpload (progressUpdate 95);
                UpdateUpload (progressUpdate 99);
                EnqueueCountTokens] ++ [UpdateUpload completeUpdate])
         by done;
    rewrite ?app_assoc, uploadAfter_snoc; try done.
  rewrite applyUpdate_keeps_errorMessage by done.
  rewrite <- !app_assoc. unfold uploadAfter.
  rewrite !updates_app, !foldl_app.
  rewrite (batchCalls_updates CreateManyInputs) by done.
  rewrite (batchCalls_updates CreateManyOutputs) by done.
  rewrite (batchCalls_updates CreateManyNodeData) by done.
  destruct (progress_updates_views
              (fun progress => 5 + floorScaled e 60 progress (fileSize upload))
              (downloadBlobToStrings e (blobName upload)
                 (maxEntriesToImport * 2)).1) as (_ & _ & _ & Hup).
  cbv zeta in Hup. rewrite Hup.
  destruct (tooManyErrors (parseRowsToImport e rawRows));
    repeat (rewrite foldl_keeps_errorMessage;
            [|first [ by apply wellSized_progress_only
                    | by repeat constructor
                    | by apply Forall_map, Forall_true ]]);
    done.
Qed.

(** X27: When the rows cannot be prepared, an import that returns has saved
    nothing and queued nothing: it ends as ERROR, visible, under the message
    of the failure. *)
Theorem import_prepare_failure_saves_nothing
    e projectId nodeId dataChannelId maxEntriesToImport upload made rawRows
    failure :
  fileUpload e = Some upload ->
  importDatasetEntries e projectId nodeId dataChannelId maxEntriesToImport []
  = (made, inr tt) ->
  (downloadBlobToStrings e (blobName upload) (maxEntriesToImport * 2)).2
  = inr rawRows ->
  prepareDatasetEntriesForImport e projectId nodeId dataChannelId
    (entriesToImport e nodeId maxEntriesToImport
       (goodRows (parseRowsToImport e rawRows))) = inl failure ->
  inputBatches made = [] /\ outputBatches made = []
  /\ nodeDataBatches made = []
  /\ ~ In EnqueueCountTokens made
  /\ set_status (uploadAfter made) = Some "ERROR"
  /\ set_visible (uploadAfter made) = Some true
  /\ set_errorMessage (uploadAfter made)
     = Some ("Error preparing rows: " +:+ message failure).
Proof.
  intros Hupload Hrun Hdownload Hprepared.
  destruct (import_run _ _ _ _ _ _ _ Hupload Hrun) as (raw & Hraw & H).
  rewrite Hdownload in Hraw. injection Hraw as <-.
  cbv zeta in H. rewrite Hprepared in H. subst made.
  destruct (progress_updates_views
              (fun progress => 5 + floorScaled e 60 progress (fileSize upload))
              (downloadBlobToStrings e (blobName upload)
                 (maxEntriesToImport * 2)).1) as (Hi0 & Ho0 & Hn0 & _).
  cbv zeta in Hi0, Ho0, Hn0.
  rewrite !inputBatches_app, !outputBatches_app, !nodeDataBatches_app.
  rewrite Hi0, Ho0, Hn0, uploadAfter_snoc.
  destruct (tooManyErrors (parseRowsToImport e rawRows));
    repeat split; try done;
    rewrite !in_app_iff, in_map_iff; simpl;
    intros [[H|[H|H]]|H]; try destruct H as (? & ? & ?); intuition; done.
Qed.

(** X28: Without an upload record nothing is downloaded, saved or queued,
    whether the update of the missing record is accepted or not. *)
Lemma import_missing_upload e projectId nodeId dataChannelId
    maxEntriesToImport :
  fileUpload e = None ->
  let made :=
    (importDatasetEntries e projectId nodeId dataChannelId
       maxEntriesToImport []).1 in
  Forall (fun c => match c with
                   | FindUpload | UpdateUpload _ => True
                   | _ => False
                   end) made.
Proof.
  intros Hupload. unfold importDatasetEntries, updateDatasetFileUpload,
    bind, call.
  rewrite Hupload. simpl.
  destruct (rejects e FindUpload); simpl; [repeat constructor|].
  destruct (rejects e _); simpl; repeat constructor.
Qed.

Lemma append_inj_r (prefix a b : string) :
  prefix +:+ a = prefix +:+ b -> a = b.
Proof.
  induction prefix as [|c prefix IH]; simpl; [done|].
  intros H. injection H as H. by apply IH.
Qed.

Lemma entry_rows_imap (make : nat -> Json -> EntryToImport) rows :
  (forall i row, entry_row (make i row) = row) ->
  map entry_row (imap make rows) = rows.
Proof.
  revert make. induction rows as [|row rows IH]; intros make H; [done|].
  simpl. rewrite H. f_equal. apply IH. intros i r. apply H.
Qed.

(** X29: The entries handed to the preparation are the first good rows, as
    many as the maximum allows (a negative maximum counts from the end, as
    [slice] does), and the unique prefixes from which their import ids are
    made differ from one entry to the next. *)
Theorem import_entries_capped_and_distinct e nodeId maxEntriesToImport good :
  let entries := entriesToImport e nodeId maxEntriesToImport good in
  map entry_row entries
  = take (Z.to_nat (if maxEntriesToImport <? 0
                    then Z.of_nat (length good) + maxEntriesToImport
                    else maxEntriesToImport)) good
  /\ (forall i entry,
        entries !! i = Some entry ->
        importId entry
        = generateImportId e (toISOString e +:+ "-" +:+ pretty i) nodeId)
  /\ (forall i j : nat,
        i <> j ->
        toISOString e +:+ "-" +:+ pretty i
        <> toISOString e +:+ "-" +:+ pretty j).
Proof.
  unfold entriesToImport. split; [|split].
  - rewrite entry_rows_imap by done.
    unfold slice, relativeIndex. simpl.
    rewrite (Z.min_l 0) by lia. change (Z.to_nat 0) with 0%nat.
    rewrite drop_0, Z.sub_0_r.
    destruct (Z.ltb_spec maxEntriesToImport 0).
    + f_equal. lia.
    + destruct (decide (maxEntriesToImport <= Z.of_nat (length good))).
      * by rewrite Z.min_l by lia.
      * rewrite Z.min_r by lia. rewrite Nat2Z.id.
        rewrite take_ge by lia. by rewrite take_ge by lia.
  - intros i entry Hi. apply list_lookup_imap_Some in Hi as (row & _ & ->).
    done.
  - intros i j Hne Heq. apply append_inj_r, append_inj_r in Heq.
    by apply (inj pretty) in Heq.
Qed.

(** * Runs of the latest logged call, the modal, the sign-in and the import *)

Lemma latest_is_own_and_most_recent_witness :
  let e := Scenario.healthy in
  let ctx := Scenario.caller false ∅ in
  same (Some "development") "production" = false
  /\ match localTestingOnlyGetLatestLoggedCall e (Some "development") ctx
             Cases.logTable with
     | inr (Some found) =>
         readFault e = None
         /\ exists row,
              In row Cases.logTable
              /\ found = withTagObject row
              /\ row_projectId row = projectId (key ctx)
              /\ forall other,
                   In other Cases.logTable ->
                   row_projectId other = projectId (key ctx) ->
                   row_requestedAt other <= row_requestedAt row
     | inr None =>
         readFault e = None
         /\ forall row,
              In row Cases.logTable ->
              row_projectId row <> projectId (key ctx)
     | inl failure => exists m, readFault e = Some m /\ failure = Error m
     end.
Proof.
  intros e ctx. split; [reflexivity|].
  exact (latest_is_own_and_most_recent e (Some "development") ctx
           Cases.logTable eq_refl).
Defined.

Example latest_of_project_1 :
  match localTestingOnlyGetLatestLoggedCall Scenario.healthy None
          (Scenario.caller false ∅) Cases.logTable with
  | inr (Some found) =>
      latest_id found = "call-3"
      /\ latest_tags found !! "prompt" = Some (Some "v2")
      /\ latest_tags found !! "user" = Some None
  | _ => False
  end.
Proof. by vm_compute. Qed.

(** A log that cannot be read: the error of the read reaches the caller. *)
Example latest_of_unreadable_log :
  localTestingOnlyGetLatestLoggedCall
    (withReadFault (Some "Can't reach database server") Scenario.healthy)
    None (Scenario.caller false ∅) Cases.logTable
  = inl (Error "Can't reach database server").
Proof. reflexivity. Qed.

Lemma tally_covers_texts_witness :
  Forall (fun result => settledStatus result = true) Cases.comparisons
  /\ tally (Some Cases.comparisons) = (1, 1, 1)%nat
  /\ length (filter (fun result => shows "WIN" result = true)
                    Cases.comparisons) = 1%nat
  /\ length (filter (fun result => shows "TIE" result = true)
                    Cases.comparisons) = 1%nat
  /\ length (filter (fun result => shows "LOSS" result = true)
                    Cases.comparisons) = 1%nat.
Proof.
  assert (Hall : Forall (fun result => settledStatus result = true)
                        Cases.comparisons) by (repeat constructor).
  split; [exact Hall|]. split; [reflexivity|].
  pose proof (tally_covers_texts Cases.comparisons) as H.
  change (tally (Some Cases.comparisons)) with (1, 1, 1)%nat in H.
  cbv zeta in H. destruct H as [_ H]. exact (H Hall).
Defined.




Lemma import_saves_every_row_once_witness :
  let lines := List.repeat "row" 2500 in
  let e := Cases.importOf lines None in
  let upload := {| blobName := "uploads/rows.jsonl"; fileSize := 64 |} in
  let made := (importDatasetEntries e "project-1" "node-1" "channel-1"
                 5000 []).1 in
  let rows := List.repeat (JStr "row") 2500 in
  fileUpload e = Some upload
  /\ importDatasetEntries e "project-1" "node-1" "channel-1" 5000 []
     = (made, inr tt)
  /\ (downloadBlobToStrings e (blobName upload) (5000 * 2)).2 = inr lines
  /\ map length (inputBatches made) = [1000; 1000; 500]%nat
  /\ concat (inputBatches made) = rows
  /\ concat (outputBatches made) = rows
  /\ Forall (fun batch => (0 < length batch <= 1000)%nat)
       (inputBatches made ++ outputBatches made ++ nodeDataBatches made).
Proof.
  intros lines e upload made rows.
  assert (Hrun : importDatasetEntries e "project-1" "node-1" "channel-1"
                   5000 [] = (made, inr tt)) by (vm_compute; reflexivity).
  assert (Hprepared :
            prepareDatasetEntriesForImport e "project-1" "node-1" "channel-1"
              (entriesToImport e "node-1" 5000
                 (goodRows (parseRowsToImport e lines)))
            = inr {| datasetEntryInputsToCreate := rows;
                     datasetEntryOutputsToCreate := rows;
                     nodeDataToCreate :=
                       map (fun entry => JStr (importId entry))
                           (entriesToImport e "node-1" 5000
                              (goodRows (parseRowsToImport e lines))) |})
    by (vm_compute; reflexivity).
  destruct (import_saves_every_row_once e "project-1" "node-1" "channel-1"
              5000 upload made lines _ eq_refl Hrun eq_refl Hprepared)
    as (Hin & Hout & _ & Hsizes).
  split; [reflexivity|]. split; [exact Hrun|]. split; [reflexivity|].
  split; [by vm_compute|]. split; [exact Hin|]. split; [exact Hout|].
  exact Hsizes.
Defined.

Lemma import_completes_over_parse_errors_witness :
  let lines := ["oops"; "row"; "oops"] in
  let e := Cases.importOf lines None in
  let upload := {| blobName := "uploads/rows.jsonl"; fileSize := 64 |} in
  let made := (importDatasetEntries e "project-1" "node-1" "channel-1"
                 10 []).1 in
  fileUpload e = Some upload
  /\ importDatasetEntries e "project-1" "node-1" "channel-1" 10 []
     = (made, inr tt)
  /\ (downloadBlobToStrings e (blobName upload) (10 * 2)).2 = inr lines
  /\ tooManyErrors (parseRowsToImport e lines) = true
  /\ set_status (uploadAfter made) = Some "COMPLETE"
  /\ set_progress (uploadAfter made) = Some 100
  /\ set_visible (uploadAfter made) = Some true
  /\ set_errorMessage (uploadAfter made)
     = Some "Invalid JSONL on line 1: Unexpected token o"
  /\ In EnqueueCountTokens made.
Proof.
  intros lines e upload made.
  assert (Hrun : importDatasetEntries e "project-1" "node-1" "channel-1"
                   10 [] = (made, inr tt)) by (vm_compute; reflexivity).
  assert (Hprepared :
            prepareDatasetEntriesForImport e "project-1" "node-1" "channel-1"
              (entriesToImport e "node-1" 10
                 (goodRows (parseRowsToImport e lines)))
            = inr {| datasetEntryInputsToCreate := [JStr "row"];
                     datasetEntryOutputsToCreate := [JStr "row"];
                     nodeDataToCreate :=
                       [JStr "node-1/2023-11-14T22:13:20.000Z-0"] |})
    by (vm_compute; reflexivity).
  destruct (import_completes_over_parse_errors e "project-1" "node-1"
              "channel-1" 10 upload made lines _ eq_refl Hrun eq_refl
              Hprepared) as (Hs & Hp & Hv & He & Hq).
  split; [reflexivity|]. split; [exact Hrun|]. split; [reflexivity|].
  split; [reflexivity|]. split; [exact Hs|]. split; [exact Hp|].
  split; [exact Hv|]. split; [exact He|]. exact Hq.
Defined.

Lemma import_prepare_failure_saves_nothing_witness :
  let lines := ["row"; "row"] in
  let e := Cases.importOf lines (Some "duplicate import id") in
  let upload := {| blobName := "uploads/rows.jsonl"; fileSize := 64 |} in
  let made := (importDatasetEntries e "project-1" "node-1" "channel-1"
                 10 []).1 in
  fileUpload e = Some upload
  /\ importDatasetEntries e "project-1" "node-1" "channel-1" 10 []
     = (made, inr tt)
  /\ (downloadBlobToStrings e (blobName upload) (10 * 2)).2 = inr lines
  /\ inputBatches made = [] /\ outputBatches made = []
  /\ nodeDataBatches made = []
  /\ ~ In EnqueueCountTokens made
  /\ set_status (uploadAfter made) = Some "ERROR"
  /\ set_visible (uploadAfter made) = Some true
  /\ set_errorMessage (uploadAfter made)
     = Some "Error preparing rows: duplicate import id".
Proof.
  intros lines e upload made.
  assert (Hrun : importDatasetEntries e "project-1" "node-1" "channel-1"
                   10 [] = (made, inr tt)) by (vm_compute; reflexivity).
  split; [reflexivity|]. split; [exact Hrun|]. split; [reflexivity|].
  exact (import_prepare_failure_saves_nothing e "project-1" "node-1"
           "channel-1" 10 upload made lines (Error "duplicate import id")
           eq_refl Hrun eq_refl eq_refl).
Defined.

Lemma authorize_requires_email_witness :
  let credentials := Some ({[ "email" := EmptyString ]} : gmap string string) in
  truthy (credentials ≫= (fun c => c !! "email")) = false
  /\ authorize "user-1" credentials Cases.nobody
     = (Cases.nobody, inl (Error "Email is required")).
Proof.
  intros credentials. split; [reflexivity|].
  exact (authorize_requires_email "user-1" credentials Cases.nobody eq_refl).
Defined.

Lemma authorize_creates_account_witness :
  let credentials := Some ({[ "email" := "ada@example.com" ]}
                           : gmap string string) in
  let w' := (authorize "user-1" credentials Cases.nobody).1 in
  authorize "user-1" credentials Cases.nobody = (w', inr Cases.ada)
  /\ ~ In Cases.ada (users Cases.nobody)
  /\ users w' = users Cases.nobody ++ [Cases.ada]
  /\ accounts w'
     = accounts Cases.nobody
       ++ [{| account_userId := "user-1";
              account_provider := "credentials";
              account_type := "credentials";
              account_providerAccountId := "user-1" |}]
  /\ user_id Cases.ada = "user-1".
Proof.
  intros credentials w'.
  assert (H : authorize "user-1" credentials Cases.nobody
              = (w', inr Cases.ada)) by (vm_compute; reflexivity).
  assert (Hnew : ~ In Cases.ada (users Cases.nobody)) by (simpl; tauto).
  split; [exact H|]. split; [exact Hnew|].
  exact (authorize_creates_account "user-1" credentials Cases.nobody w'
           Cases.ada H Hnew).
Defined.

Lemma import_missing_upload_witness :
  fileUpload Cases.missingUpload = None
  /\ Forall (fun c => match c with
                      | FindUpload | UpdateUpload _ => True
                      | _ => False
                      end)
       (importDatasetEntries Cases.missingUpload "project-1" "node-1"
          "channel-1" 10 []).1.
Proof.
  split; [reflexivity|].
  exact (import_missing_upload Cases.missingUpload "project-1" "node-1"
           "channel-1" 10 eq_refl).
Defined.
